(** * Single fetch data strategy: a shallow embedding and its properties

    The development follows the client-side single-fetch module
    ([getSingleFetchDataStrategy] and its helpers [stripIndexParam],
    [addRevalidationParam], [singleFetchUrl], [fetchAndDecode] and
    [unwrapSingleFetchResult]).

    Conventions of the embedding:
    - a URL string is represented by the record the platform's [new URL(s)]
      parses it into; [url.href] is that record again, so the helpers below
      are functions on [URL].  Two records are equal when their parsed
      components are; a query that was touched through [searchParams] is
      written out again by the platform, so the text of its [href] may differ
      from the text that was parsed even when the parameters are the same;
    - a [string] is a sequence of characters with codes below 256; text
      with other characters is outside the model;
    - a computation that may [throw] returns a [Completion];
    - JavaScript objects used as dictionaries are finite maps of their own
      properties; where the source reads [obj[key]] the properties that every
      object inherits from [Object.prototype] are read as well;
    - the cooperative scheduling of the [async] closures of one navigation is
      a transition system over explicit events (module [Loader]). *)

From Stdlib Require Import String Ascii ZArith List Bool Lia.
From stdpp Require Import base option list gmap strings.

Set Warnings "-register-all".

(** ** JavaScript values and completions *)

(** The values that flow through the module.  [JError m] is [new Error(m)],
    [JTypeError] is the platform's [TypeError] (reading a property of
    [undefined], an invalid header value), [JRangeError] its [RangeError],
    [JSyntaxError] is what the stream decoder raises,
    [JErrorResponse a b c d] is [new ErrorResponseImpl(a, b, c, d)] and
    [JRedirect location status headers] is the response that
    [redirect(url, { status, headers })] returns: its [Location], its status
    and the headers it was given. *)
Inductive JsValue :=
| JUndefined
| JNull
| JBool (b : bool)
| JNum (n : Z)
| JStr (s : string)
| JObject (props : list (string * JsValue))
| JError (message : string)
| JTypeError
| JSyntaxError
| JErrorResponse (status statusText data : JsValue) (internal : bool)
| JRedirect (location : string) (status : Z) (headers : gmap string string)
| JRangeError.

(** Outcome of running a piece of code: a value, or a thrown value. *)
Inductive Completion (A : Type) :=
| Normal (a : A)
| Throw (e : JsValue).
Arguments Normal {A} a.
Arguments Throw {A} e.

#[global] Instance Completion_ret : MRet Completion := fun A a => Normal a.
#[global] Instance Completion_bind : MBind Completion := fun A B f m =>
  match m with
  | Normal a => f a
  | Throw e => Throw e
  end.

(** [obj.key] on a plain object given by its properties; a missing property
    reads as [undefined]. *)
Fixpoint lookupProp (key : string) (props : list (string * JsValue)) : JsValue :=
  match props with
  | [] => JUndefined
  | (k, v) :: rest => if String.eqb k key then v else lookupProp key rest
  end.

(** [v === true] *)
Definition strictlyTrue (v : JsValue) : bool :=
  match v with
  | JBool true => true
  | _ => false
  end.

(** Truthiness of a string: only the empty string is falsy. *)
Definition truthyString (s : string) : bool :=
  match s with
  | EmptyString => false
  | String _ _ => true
  end.

(** [haystack.includes(needle)] *)
Fixpoint includes (needle haystack : string) : bool :=
  String.prefix needle haystack ||
  match haystack with
  | EmptyString => false
  | String _ rest => includes needle rest
  end.

(** [arr.join(sep)] on an array of strings. *)
Definition join (sep : string) (arr : list string) : string := String.concat sep arr.

(** ** URLs *)

(** The components of a parsed URL that the module reads or writes.  [origin]
    stands for everything before the path (scheme, credentials, host, port);
    [searchParams] is the URL's query as the ordered list of name/value
    pairs that [url.searchParams] exposes. *)
Record URL := mkURL {
  origin : string;
  pathname : string;
  searchParams : list (string * string);
  hash : string
}.

(** The operations of the platform's [URLSearchParams] that the module
    calls, on the list of pairs (URL standard, section on URLSearchParams). *)
Module URLSearchParams.

Definition getAll (name : string) (ps : list (string * string)) : list string :=
  snd <$> filter (fun p => p.1 = name) ps.

Definition delete (name : string) (ps : list (string * string)) : list (string * string) :=
  filter (fun p => p.1 ≠ name) ps.

Definition append (name value : string) (ps : list (string * string))
  : list (string * string) :=
  ps ++ [(name, value)].

(** [set]: overwrite the first pair called [name] and drop the others; append
    when there is none. *)
Fixpoint set (name value : string) (ps : list (string * string))
  : list (string * string) :=
  match ps with
  | [] => [(name, value)]
  | p :: rest =>
      if decide (p.1 = name) then (name, value) :: delete name rest
      else p :: set name value rest
  end.

End URLSearchParams.

(** [url.searchParams.<op>(..)] mutates the URL in place. *)
Definition withSearchParams (ps : list (string * string)) (url : URL) : URL :=
  {| origin := origin url; pathname := pathname url; searchParams := ps; hash := hash url |}.

(** [url.pathname = p] for an http(s) URL: the path is stored absolute, so a
    value without a leading slash receives one. *)
Definition setPathname (p : string) (url : URL) : URL :=
  {| origin := origin url;
     pathname := if String.prefix "/" p then p else "/" +:+ p;
     searchParams := searchParams url;
     hash := hash url |}.

(** ** [stripIndexParam] *)

(** The two [for .. of] loops of the source, as left folds over the arrays
    they iterate. *)
Definition stripIndexParam (_url : URL) : URL :=
  let indexValues := URLSearchParams.getAll "index" (searchParams _url) in
  let deleted := URLSearchParams.delete "index" (searchParams _url) in
  let indexValuesToKeep :=
    foldl (fun keep indexValue =>
             if truthyString indexValue then keep ++ [indexValue] else keep)
          [] indexValues in
  let appended :=
    foldl (fun ps toKeep => URLSearchParams.append "index" toKeep ps)
          deleted indexValuesToKeep in
  withSearchParams appended _url.

(** ** [singleFetchUrl] *)

Definition singleFetchUrl (reqUrl : URL) : URL :=
  setPathname
    ((if String.eqb (pathname reqUrl) "/" then "_root" else pathname reqUrl) +:+ ".data")
    reqUrl.

(** ** Inherited properties *)

(** The properties that a plain object inherits from [Object.prototype]:
    [obj[name]] is defined for these names also when [obj] has no such key of
    its own.  The value read is a function (the object [Object.prototype]
    itself for [__proto__]), which has none of the properties the module
    looks for in it. *)
Definition objectPrototypeKeys : list string :=
  [ "constructor"; "__defineGetter__"; "__defineSetter__"; "hasOwnProperty";
    "__lookupGetter__"; "__lookupSetter__"; "isPrototypeOf";
    "propertyIsEnumerable"; "toString"; "valueOf"; "__proto__"; "toLocaleString" ].

Definition isObjectPrototypeKey (key : string) : bool :=
  bool_decide (key ∈ objectPrototypeKeys).

(** ** Route metadata *)

(** Modelled from the spec: the manifest entry of a route (declared in
    [./entry], outside the module); [hasLoader] says that the route declares
    a server data step, and is the only field the module reads. *)
Record EntryRoute := {
  hasLoader : bool
}.

Record AssetsManifest := {
  routes : gmap string EntryRoute
}.

(** Modelled from the spec: a loaded route module (declared in
    [./routeModules]); the optional [shouldRevalidate] hook is a predicate on
    the framework's revalidation arguments. *)
Record RouteModule := {
  shouldRevalidate : option (JsValue -> bool)
}.

Module Route.
Record t := { id : string }.
End Route.

(** A matched route of the navigation, as the router hands it to the data
    strategy ([m.resolve] is driven by the router and appears in module
    [Loader] as the events of a schedule). *)
Record DataStrategyMatch := {
  route : Route.t;
  shouldLoad : bool
}.

(** ** [addRevalidationParam] *)

(** [arr.filter(p)] for a callback that may throw. *)
Fixpoint filterM {A : Type} (p : A -> Completion bool) (arr : list A)
  : Completion (list A) :=
  match arr with
  | [] => mret []
  | x :: rest =>
      keep ← p x;
      kept ← filterM p rest;
      mret (if keep : bool then x :: kept else kept)
  end.

(** [manifest.routes[id].hasLoader], as the truth value [filter] takes it
    for.  For an [id] without an entry, [manifest.routes[id]] is [undefined]
    and reading [hasLoader] of it is a [TypeError], unless [id] names an
    inherited property: the value read then has no [hasLoader], which is
    falsy. *)
Definition routeHasLoader (manifest : AssetsManifest) (id : string) : Completion bool :=
  match routes manifest !! id with
  | Some r => mret (hasLoader r)
  | None => if isObjectPrototypeKey id then mret false else Throw JTypeError
  end.

Definition genRouteIds (manifest : AssetsManifest) (arr : list string) : Completion string :=
  kept ← filterM (routeHasLoader manifest) arr;
  mret (join "," kept).

(** [routeModules[m.route.id]?.shouldRevalidate], as a truth value. *)
Definition declaresShouldRevalidate
    (routeModules : gmap string RouteModule) (m : DataStrategyMatch) : bool :=
  match routeModules !! Route.id (route m) with
  | Some module => bool_decide (is_Some (shouldRevalidate module))
  | None => false
  end.

Definition addRevalidationParam
    (manifest : AssetsManifest) (routeModules : gmap string RouteModule)
    (matches : list DataStrategyMatch) (_url : URL) : Completion URL :=
  if existsb (declaresShouldRevalidate routeModules) matches then
    matchedIds ← genRouteIds manifest ((fun m => Route.id (route m)) <$> matches);
    loadIds ← genRouteIds manifest
      ((fun m => Route.id (route m)) <$> filter (fun m => shouldLoad m = true) matches);
    if negb (String.eqb matchedIds loadIds) then
      mret (withSearchParams
              (URLSearchParams.set "_routes" loadIds (searchParams _url)) _url)
    else mret _url
  else mret _url.

(** ** Per-route results and [unwrapSingleFetchResult] *)

(** The members of a [redirect] result. *)
Record RedirectResult := {
  redirect : string;
  status : Z;
  revalidate : bool;
  reload : bool
}.

(** A per-route result object.  The source tells the cases of the union apart
    with the [in] operator, so the object is recorded by which of the three
    tags it carries; [V] is the type of the opaque payloads ([Encoded] on the
    wire, [JsValue] once decoded). *)
Record SingleFetchResultOf (V : Type) := {
  error : option V;
  redirectResult : option RedirectResult;
  data : option V
}.
Arguments error {V} _.
Arguments redirectResult {V} _.
Arguments data {V} _.

Abbreviation SingleFetchResult := (SingleFetchResultOf JsValue).
Abbreviation SingleFetchResults := (gmap string (SingleFetchResultOf JsValue)).

(** The double quote character of the error message. *)
Definition dquote : string := String (ascii_of_nat 34) EmptyString.

(** The router's [redirect(url, init)], which builds the response with the
    platform's [Headers] and [Response]. *)
Module Router.

(** HTTP whitespace: tab, line feed, carriage return, space. *)
Definition isHttpWhitespace (c : ascii) : bool :=
  match nat_of_ascii c with
  | 9 | 10 | 13 | 32 => true
  | _ => false
  end.

(** The bytes no header value may contain: NUL, line feed, carriage return. *)
Definition isForbiddenInValue (c : ascii) : bool :=
  match nat_of_ascii c with
  | 0 | 10 | 13 => true
  | _ => false
  end.

Fixpoint trimStart (s : string) : string :=
  match s with
  | EmptyString => EmptyString
  | String c rest => if isHttpWhitespace c then trimStart rest else s
  end.

Fixpoint trimEnd (s : string) : string :=
  match s with
  | EmptyString => EmptyString
  | String c rest =>
      match trimEnd rest with
      | EmptyString => if isHttpWhitespace c then EmptyString else String c EmptyString
      | kept => String c kept
      end
  end.

(** [headers.set] first strips leading and trailing HTTP whitespace. *)
Definition normalizeHeaderValue (value : string) : string :=
  trimEnd (trimStart value).

Fixpoint isHeaderValue (value : string) : bool :=
  match value with
  | EmptyString => true
  | String c rest => negb (isForbiddenInValue c) && isHeaderValue rest
  end.

(** [headers.set("Location", url)] throws a [TypeError] for a value that is
    no header value; [new Response(null, { status, headers })] then takes
    [status] as an unsigned 16 bit integer and throws a [RangeError] unless
    it lies between 200 and 599. *)
Definition redirect (url : string) (status : Z) (headers : gmap string string)
  : Completion JsValue :=
  let location := normalizeHeaderValue url in
  if isHeaderValue location then
    let status := (status mod 65536)%Z in
    if ((200 <=? status) && (status <=? 599))%Z
    then mret (JRedirect location status headers)
    else Throw JRangeError
  else Throw JTypeError.

End Router.

Definition unwrapSingleFetchResult (result : SingleFetchResult) (routeId : string)
  : Completion JsValue :=
  match error result with
  | Some e => Throw e
  | None =>
      match redirectResult result with
      | Some r =>
          let headers : gmap string string := ∅ in
          let headers :=
            if revalidate r then <["X-Remix-Revalidate" := "yes"]> headers else headers in
          let headers :=
            if reload r then <["X-Remix-Reload-Document" := "yes"]> headers else headers in
          Router.redirect (redirect r) (status r) headers
      | None =>
          match data result with
          | Some d => mret d
          | None =>
              Throw (JError ("No action response found for routeId "
                             +:+ dquote +:+ routeId +:+ dquote))
          end
      end
  end.

(** ** The wire format and [fetchAndDecode] *)

(** A value of the stream: either one that decodes to itself, or a custom
    typed entry [type, payload] that only a plugin can rebuild.  The payload
    is the object that the plugin's cast [value as ErrorResponse] declares it
    to be, given by its properties. *)
Inductive Encoded :=
| EValue (v : JsValue)
| ECustom (type : string) (payload : list (string * JsValue)).

(** A decoder plugin: [(type, value) => { value } | undefined]. *)
Definition Plugin := string -> list (string * JsValue) -> option JsValue.

(** The plugin the module registers. *)
Definition errorResponsePlugin : Plugin := fun type value =>
  if String.eqb type "ErrorResponse" then
    let errorResponse := value in
    Some (JErrorResponse
            (lookupProp "status" errorResponse)
            (lookupProp "statusText" errorResponse)
            (lookupProp "data" errorResponse)
            (strictlyTrue (lookupProp "internal" errorResponse)))
  else None.

(** The stream decoder's treatment of one value: plugins are tried in order
    on a custom typed entry, and an entry no plugin rebuilds is an error. *)
Fixpoint applyPlugins (plugins : list Plugin) (type : string)
    (payload : list (string * JsValue))
  : Completion JsValue :=
  match plugins with
  | [] => Throw JSyntaxError
  | plugin :: rest =>
      match plugin type payload with
      | Some v => mret v
      | None => applyPlugins rest type payload
      end
  end.

Definition decodeValue (plugins : list Plugin) (e : Encoded) : Completion JsValue :=
  match e with
  | EValue v => mret v
  | ECustom type payload => applyPlugins plugins type payload
  end.

(** [decode(body, plugins)] at the shape [D] the caller casts the decoded
    value to. *)
Class Decode (B D : Type) := decode : B -> list Plugin -> Completion D.

Definition decodeOptional (plugins : list Plugin) (e : option Encoded)
  : Completion (option JsValue) :=
  match e with
  | Some e => v ← decodeValue plugins e; mret (Some v)
  | None => mret None
  end.

#[global] Instance Decode_result : Decode (SingleFetchResultOf Encoded) SingleFetchResult :=
  fun body plugins =>
    e ← decodeOptional plugins (error body);
    d ← decodeOptional plugins (data body);
    mret {| error := e; redirectResult := redirectResult body; data := d |}.

(** A results object arrives as its entries (one per key) in stream order. *)
Fixpoint decodeEntries (plugins : list Plugin)
    (entries : list (string * SingleFetchResultOf Encoded))
  : Completion SingleFetchResults :=
  match entries with
  | [] => mret ∅
  | (routeId, body) :: rest =>
      result ← decode body plugins;
      results ← decodeEntries plugins rest;
      mret (<[routeId := result]> results)
  end.

#[global] Instance Decode_results
  : Decode (list (string * SingleFetchResultOf Encoded)) SingleFetchResults :=
  fun body plugins => decodeEntries plugins body.

(** What the module reads of a [Response]: [headers.get("Content-Type")] and
    the body stream. *)
Record Response (B : Type) := {
  contentType : option string;
  body : B
}.
Arguments contentType {B} _.
Arguments body {B} _.

(** Modelled from the spec: [invariant(value, message)] of [./invariant]
    fails fast with an error carrying [message] unless the asserted value
    holds.  The asserted value here is [undefined] or a boolean. *)
Definition invariant (value : option bool) (message : string) : Completion unit :=
  match value with
  | Some true => mret tt
  | _ => Throw (JError message)
  end.

Section Fetch.
Context {RequestInit B D : Type} `{!Decode B D}.
(** The network: what awaiting [fetch(url, init)] yields. *)
Variable fetch : URL -> option RequestInit -> Completion (Response B).

Definition fetchAndDecode (url : URL) (init : option RequestInit) : Completion D :=
  res ← fetch url init;
  _ ← invariant (includes "text/x-turbo" <$> contentType res)
                "Expected a text/x-turbo response";
  decoded ← decode (body res) [errorResponsePlugin];
  mret decoded.
End Fetch.

(** ** [getSingleFetchDataStrategy] *)

(** What the strategy reads of the [Request]. *)
Record Request := {
  method : string;
  url : URL
}.

(** The branch taken on [request.method !== "GET"]. *)
Inductive Strategy := ActionStrategy | LoaderStrategy.

Definition strategyOf (request : Request) : Strategy :=
  if negb (String.eqb (method request) "GET") then ActionStrategy else LoaderStrategy.

(** *** Actions: every call hits the server on its own

    The [singleFetch] of the branch [request.method !== "GET"]. *)
Module Action.
Section Action.
Context {RequestInit : Type}.
(** What awaiting [createRequestInit(request)] (of [./data]) yields. *)
Variable createRequestInit : Request -> Completion RequestInit.
Variable fetch :
  URL -> option RequestInit -> Completion (Response (SingleFetchResultOf Encoded)).
Variable request : Request.

Definition singleFetch (routeId : string) : Completion JsValue :=
  let url := singleFetchUrl (url request) in
  init ← createRequestInit request;
  result ← fetchAndDecode fetch url (Some init);
  unwrapSingleFetchResult result routeId.
End Action.
End Action.

(** *** Loaders: one promise for all routes to latch onto

    The [singleFetch] of the [else] branch ([GET] requests).  The closures of one navigation share the variable [singleFetchPromise].
    Each call of [singleFetch(routeId)] runs without interruption up to
    [await singleFetchPromise] and is parked there; it resumes, some time
    after the promise has settled, with the lookup of its own entry.  The
    router decides which handlers call [singleFetch], and when; the network
    decides when the response arrives.  A schedule is the list of these
    events in the order in which they happen. *)
Module Loader.

Inductive PromiseState :=
| Pending (url : URL)          (* the request for [url] is in flight *)
| Fulfilled (ref : nat)        (* resolved with the object at [ref] *)
| Rejected (e : JsValue).

(** A finished call: the route, the results object it read (if the promise
    resolved) and what the call returned or threw. *)
Record Settled := {
  caller : string;
  observed : option nat;
  outcome : Completion JsValue
}.

Record State := {
  singleFetchPromise : option nat;    (* the shared variable: a promise id *)
  promises : list PromiseState;       (* every promise created so far *)
  objects : list SingleFetchResults;  (* decoded results objects, by reference *)
  network : list URL;                 (* every [fetch] issued so far *)
  awaiting : list (string * nat);     (* parked calls: route and promise *)
  settled : list Settled
}.

Definition initial : State :=
  {| singleFetchPromise := None; promises := []; objects := []; network := [];
     awaiting := []; settled := [] |}.

Inductive Event :=
| Invoke (routeId : string)   (* a handler calls [singleFetch(routeId)] *)
| Settle (p : nat)            (* the response for promise [p] arrives and is decoded *)
| Resume (k : nat).           (* the [k]-th parked call continues *)

Section Navigation.
Context {RequestInit : Type}.
Variable manifest : AssetsManifest.
Variable routeModules : gmap string RouteModule.
Variable fetch :
  URL -> option RequestInit
  -> Completion (Response (list (string * SingleFetchResultOf Encoded))).
Variable request : Request.
Variable matches : list DataStrategyMatch.

(** The URL of the consolidated request. *)
Definition consolidatedUrl : Completion URL :=
  withParam ← addRevalidationParam manifest routeModules matches
                (stripIndexParam (url request));
  mret (singleFetchUrl withParam).

(** [makeSingleFetchCall()]: runs up to the [await] inside
    [fetchAndDecode], that is, issues the request and returns a pending
    promise; an exception before that point rejects the promise. *)
Definition makeSingleFetchCall (s : State) : State * nat :=
  let p := length (promises s) in
  match consolidatedUrl with
  | Normal url =>
      ({| singleFetchPromise := singleFetchPromise s;
          promises := promises s ++ [Pending url];
          objects := objects s;
          network := network s ++ [url];
          awaiting := awaiting s;
          settled := settled s |}, p)
  | Throw e =>
      ({| singleFetchPromise := singleFetchPromise s;
          promises := promises s ++ [Rejected e];
          objects := objects s;
          network := network s;
          awaiting := awaiting s;
          settled := settled s |}, p)
  end.

(** [singleFetch(routeId)] up to [await singleFetchPromise]. *)
Definition invoke (routeId : string) (s : State) : State :=
  let '(s, p) :=
    match singleFetchPromise s with
    | Some p => (s, p)
    | None =>
        let '(s, p) := makeSingleFetchCall s in
        ({| singleFetchPromise := Some p;
            promises := promises s;
            objects := objects s;
            network := network s;
            awaiting := awaiting s;
            settled := settled s |}, p)
    end in
  {| singleFetchPromise := singleFetchPromise s;
     promises := promises s;
     objects := objects s;
     network := network s;
     awaiting := awaiting s ++ [(routeId, p)];
     settled := settled s |}.

(** The rest of [fetchAndDecode] once the response is there.  [fetch] is a
    function of the request, so consulting it here yields the response to the
    request that [makeSingleFetchCall] issued. *)
Definition settle (p : nat) (s : State) : option State :=
  match promises s !! p with
  | Some (Pending url) =>
      match fetchAndDecode fetch url None with
      | Normal results =>
          Some {| singleFetchPromise := singleFetchPromise s;
                  promises := <[p := Fulfilled (length (objects s))]> (promises s);
                  objects := objects s ++ [results];
                  network := network s;
                  awaiting := awaiting s;
                  settled := settled s |}
      | Throw e =>
          Some {| singleFetchPromise := singleFetchPromise s;
                  promises := <[p := Rejected e]> (promises s);
                  objects := objects s;
                  network := network s;
                  awaiting := awaiting s;
                  settled := settled s |}
      end
  | _ => None
  end.

(** What [results[routeId]] is for a [routeId] that is no key of [results]
    but names an inherited property: a value without any of the three
    tags. *)
Definition inheritedProperty : SingleFetchResult :=
  {| error := None; redirectResult := None; data := None |}.

(** [singleFetch(routeId)] after [await singleFetchPromise]. *)
Definition continue (routeId : string) (results : SingleFetchResults)
  : Completion JsValue :=
  match results !! routeId with
  | Some result => unwrapSingleFetchResult result routeId
  | None =>
      if isObjectPrototypeKey routeId
      then unwrapSingleFetchResult inheritedProperty routeId
      else mret JNull
  end.

Definition finish (k : nat) (c : Settled) (s : State) : State :=
  {| singleFetchPromise := singleFetchPromise s;
     promises := promises s;
     objects := objects s;
     network := network s;
     awaiting := delete k (awaiting s);
     settled := settled s ++ [c] |}.

Definition resume (k : nat) (s : State) : option State :=
  match awaiting s !! k with
  | Some (routeId, p) =>
      match promises s !! p with
      | Some (Fulfilled ref) =>
          results ← objects s !! ref;
          Some (finish k {| caller := routeId; observed := Some ref;
                            outcome := continue routeId results |} s)
      | Some (Rejected e) =>
          Some (finish k {| caller := routeId; observed := None;
                            outcome := Throw e |} s)
      | _ => None
      end
  | None => None
  end.

(** One event; [None] when the event cannot happen in state [s]. *)
Definition step (s : State) (ev : Event) : option State :=
  match ev with
  | Invoke routeId => Some (invoke routeId s)
  | Settle p => settle p s
  | Resume k => resume k s
  end.

Fixpoint run (schedule : list Event) (s : State) : option State :=
  match schedule with
  | [] => Some s
  | ev :: rest => s' ← step s ev; run rest s'
  end.

End Navigation.

Definition isInvoke (ev : Event) : bool :=
  match ev with
  | Invoke _ => true
  | _ => false
  end.

End Loader.

(** ** The Cloudflare Workers entry point ([server.ts]) *)

Module Worker.

(** What the worker answers with: a response handed over by a collaborator,
    as it is, or [new Response(body, { status })]. *)
Inductive Answer (R : Type) :=
| Passed (r : R)
| Built (body : string) (status : Z).
Arguments Passed {R} r.
Arguments Built {R} body status.

Record CacheControl := {
  browserTTL : Z;
  edgeTTL : Z
}.

(** The options handed to [getAssetFromKV]. *)
Record Options (Fetcher Manifest : Type) := {
  ASSET_NAMESPACE : Fetcher;
  ASSET_MANIFEST : Manifest;
  cacheControl : CacheControl
}.
Arguments ASSET_NAMESPACE {Fetcher Manifest} _.
Arguments ASSET_MANIFEST {Fetcher Manifest} _.
Arguments cacheControl {Fetcher Manifest} _.

(** The worker's [env]. *)
Record Env (Fetcher : Type) := {
  __STATIC_CONTENT : Fetcher
}.
Arguments __STATIC_CONTENT {Fetcher} _.

Section Worker.
Context {Fetcher Manifest R : Type}.
(** [JSON.parse(manifestJSON)] *)
Variable assetManifest : Manifest.
(** What awaiting the collaborators yields; the event of [getAssetFromKV] is
    given by its request, and the load context of the application handler by
    the [env] it wraps. *)
Variable getAssetFromKV : Request → Options Fetcher Manifest → Completion R.
Variable handleRemixRequest : Request → Env Fetcher → Completion R.

(** [fetch(request, env, ctx)]: what is written to the console, and the
    completion of the handler. *)
Definition fetch (request : Request) (env : Env Fetcher)
  : list JsValue * Completion (Answer R) :=
  let firstTry : Completion R :=
    let url := url request in
    let ttl :=
      if String.prefix "/build/" (pathname url)
      then (60 * 60 * 24 * 365)%Z
      else (60 * 5)%Z in
    getAssetFromKV request
      {| ASSET_NAMESPACE := __STATIC_CONTENT env;
         ASSET_MANIFEST := assetManifest;
         cacheControl := {| browserTTL := ttl; edgeTTL := ttl |} |} in
  match firstTry with
  | Normal asset => ([], Normal (Passed asset))
  | Throw _ =>
      let loadContext := env in
      match handleRemixRequest request loadContext with
      | Normal response => ([], Normal (Passed response))
      | Throw error => ([error], Normal (Built "An unexpected error occurred" 500))
      end
  end.

End Worker.
End Worker.

(** ** Vocabulary of the statements *)

(** The identifiers of the matched routes, in match order. *)
Definition routeIds (matches : list DataStrategyMatch) : list string :=
  (fun m => Route.id (route m)) <$> matches.

(** Every matched route has an entry in the manifest. *)
Definition manifestCovers (manifest : AssetsManifest) (matches : list DataStrategyMatch)
  : Prop :=
  ∀ id, id ∈ routeIds matches → is_Some (routes manifest !! id).

(** The route declares a server data step. *)
Definition hasServerStep (manifest : AssetsManifest) (id : string) : bool :=
  match routes manifest !! id with
  | Some r => hasLoader r
  | None => false
  end.

(** The identifiers, in match order, of the routes among [matches] that
    declare a server data step. *)
Definition serverStepIds (manifest : AssetsManifest) (matches : list DataStrategyMatch)
  : list string :=
  filter (fun id => hasServerStep manifest id = true) (routeIds matches).

(** The routes the framework marked as needing to load. *)
Definition loading (matches : list DataStrategyMatch) : list DataStrategyMatch :=
  filter (fun m => shouldLoad m = true) matches.

(** The route's module declares a [shouldRevalidate] hook. *)
Definition DeclaresHook (routeModules : gmap string RouteModule) (m : DataStrategyMatch)
  : Prop :=
  ∃ module, routeModules !! Route.id (route m) = Some module
            ∧ is_Some (shouldRevalidate module).

(** A redirect result that [redirect] can turn into a response as it stands:
    the location is a header value with no surrounding whitespace, and the
    status is one a response may have. *)
Definition wellFormedRedirect (r : RedirectResult) : Prop :=
  Router.normalizeHeaderValue (redirect r) = redirect r
  ∧ Router.isHeaderValue (redirect r) = true
  ∧ (200 ≤ status r ≤ 599)%Z.

(** Characters a list contributes to its comma-joined form, counting one
    separator per element. *)
Definition weight (l : list string) : nat :=
  foldr (fun s n => S (String.length s) + n) 0 l.

(** The response asserts the streaming content type. *)
Definition hasTurboContentType {B : Type} (res : Response B) : Prop :=
  ∃ contentTypeHeader,
    contentType res = Some contentTypeHeader
    ∧ includes "text/x-turbo" contentTypeHeader = true.

(** Number of calls of [singleFetch] in a schedule. *)
Definition invocations (schedule : list Loader.Event) : nat :=
  length (filter (fun ev => Loader.isInvoke ev = true) schedule).

(** What [singleFetch(routeId)] returns when it is the only call of the
    navigation and nothing is interleaved: build the URL, fetch and decode,
    look the route up. *)
Definition soloSingleFetch {RequestInit : Type}
    (manifest : AssetsManifest) (routeModules : gmap string RouteModule)
    (fetch : URL → option RequestInit
             → Completion (Response (list (string * SingleFetchResultOf Encoded))))
    (request : Request) (matches : list DataStrategyMatch) (routeId : string)
  : Completion JsValue :=
  target ← Loader.consolidatedUrl manifest routeModules request matches;
  results ← fetchAndDecode fetch target None;
  Loader.continue routeId results.

Definition isSettle (ev : Loader.Event) : bool :=
  match ev with
  | Loader.Settle _ => true
  | _ => false
  end.

(** Number of arrivals of a response in a schedule. *)
Definition arrivals (schedule : list Loader.Event) : nat :=
  length (filter (fun ev => isSettle ev = true) schedule).

(** ** A sample navigation *)

Module Sample.

(** Three matched routes: the root and [routes/a] declare a loader,
    [routes/a/b] does not; only [routes/a] declares [shouldRevalidate], and
    the framework decided that it need not load. *)
Definition manifest : AssetsManifest :=
  {| routes := <["root" := {| hasLoader := true |}]>
               (<["routes/a" := {| hasLoader := true |}]>
               (<["routes/a/b" := {| hasLoader := false |}]> ∅)) |}.

Definition routeModules : gmap string RouteModule :=
  <["root" := {| shouldRevalidate := None |}]>
  (<["routes/a" := {| shouldRevalidate := Some (fun _ => false) |}]> ∅).

Definition matches : list DataStrategyMatch :=
  [ {| route := {| Route.id := "root" |}; shouldLoad := true |};
    {| route := {| Route.id := "routes/a" |}; shouldLoad := false |};
    {| route := {| Route.id := "routes/a/b" |}; shouldLoad := true |} ].

Definition request : Request :=
  {| method := "GET";
     url := mkURL "https://remix.run" "/a/b" [("index", EmptyString); ("q", "1")]
                  EmptyString |}.

(** The same navigation with no module loaded, on a URL that already has a
    [_routes] parameter. *)
Definition noModules : gmap string RouteModule := ∅.

Definition requestWithRoutes : Request :=
  {| method := "GET";
     url := mkURL "https://remix.run" "/a/b" [("_routes", "routes/a")] EmptyString |}.

(** The server's answer to the consolidated request: the root's data, and
    nothing for the other routes. *)
Definition fetch (_ : URL) (_ : option unit)
  : Completion (Response (list (string * SingleFetchResultOf Encoded))) :=
  Normal {| contentType := Some "text/x-turbo; charset=utf-8";
            body := [("root", {| error := None; redirectResult := None;
                                 data := Some (EValue (JStr "root data")) |})] |}.

(** A server that answers with a document instead. *)
Definition fetchDocument (_ : URL) (_ : option unit)
  : Completion (Response (list (string * SingleFetchResultOf Encoded))) :=
  Normal {| contentType := Some "text/html"; body := [] |}.

(** Two routes call before the response arrives and one after it; the calls
    then resume out of order. *)
Definition schedule : list Loader.Event :=
  [ Loader.Invoke "root"; Loader.Invoke "routes/a"; Loader.Settle 0;
    Loader.Invoke "routes/a/b"; Loader.Resume 1; Loader.Resume 0; Loader.Resume 0 ].

(** An action on the same URL. *)
Definition post : Request :=
  {| method := "POST"; url := mkURL "https://remix.run" "/a/b" [] EmptyString |}.

Definition createRequestInit (_ : Request) : Completion unit := Normal tt.

Definition fetchActionDocument (_ : URL) (_ : option unit)
  : Completion (Response (SingleFetchResultOf Encoded)) :=
  Normal {| contentType := None;
            body := {| error := None; redirectResult := None; data := None |} |}.

(** A network that is down. *)
Definition fetchOffline (_ : URL) (_ : option unit)
  : Completion (Response (list (string * SingleFetchResultOf Encoded))) :=
  Throw (JError "Failed to fetch").

(** Collaborators of the worker: the store holds the build assets only, and
    the application handler fails on [/boom]. *)
Definition getAssetFromKV (request : Request) (options : Worker.Options unit unit)
  : Completion string :=
  if String.prefix "/build/" (pathname (url request))
  then Normal "asset"
  else Throw (JError "not found").

Definition handleRemixRequest (request : Request) (_ : Worker.Env unit)
  : Completion string :=
  if String.eqb (pathname (url request)) "/boom"
  then Throw (JError "loader failed")
  else Normal "document".

(** A navigation that matches a route whose identifier is the name of a
    function every object inherits; that route calls once the response has
    arrived. *)
Definition matchesInherited : list DataStrategyMatch :=
  [ {| route := {| Route.id := "root" |}; shouldLoad := true |};
    {| route := {| Route.id := "toString" |}; shouldLoad := true |} ].

Definition scheduleInherited : list Loader.Event :=
  [ Loader.Invoke "root"; Loader.Settle 0; Loader.Invoke "toString";
    Loader.Resume 0; Loader.Resume 0 ].

End Sample.

(** * Properties *)

(** ** Query parameters *)

Section SearchParamsFacts.
Import URLSearchParams.
Implicit Types (ps : list (string * string)) (name value : string).

Lemma getAll_app name ps qs : getAll name (ps ++ qs) = getAll name ps ++ getAll name qs.
Proof. unfold getAll. by rewrite filter_app, fmap_app. Qed.

Lemma delete_app name ps qs : delete name (ps ++ qs) = delete name ps ++ delete name qs.
Proof. unfold delete. by rewrite filter_app. Qed.

Lemma getAll_delete_eq name ps : getAll name (delete name ps) = [].
Proof.
  unfold getAll, delete. induction ps as [|p ps IH]; [done|].
  rewrite (filter_cons _ p ps). destruct (decide (p.1 ≠ name)) as [Hne|He]; [|done].
  rewrite filter_cons. by destruct (decide (p.1 = name)).
Qed.

Lemma getAll_delete_ne name other ps :
  name ≠ other → getAll name (delete other ps) = getAll name ps.
Proof.
  intros Hne. unfold getAll, delete. f_equal.
  rewrite list_filter_filter. apply list_filter_iff. intros p. split; [tauto|].
  intros Hp. split; [done|congruence].
Qed.

Lemma delete_delete name ps : delete name (delete name ps) = delete name ps.
Proof. unfold delete. by apply list_filter_filter_l. Qed.

Lemma getAll_tagged name (vs : list string) : getAll name ((fun v => (name, v)) <$> vs) = vs.
Proof.
  unfold getAll. induction vs as [|v vs IH]; [done|].
  rewrite fmap_cons, filter_cons. simpl. destruct (decide (name = name)); [|done].
  rewrite fmap_cons. simpl. by rewrite IH.
Qed.

Lemma delete_tagged name (vs : list string) : delete name ((fun v => (name, v)) <$> vs) = [].
Proof.
  unfold delete. induction vs as [|v vs IH]; [done|].
  rewrite fmap_cons, filter_cons. simpl. by destruct (decide (name ≠ name)).
Qed.

Lemma delete_set name value ps : delete name (set name value ps) = delete name ps.
Proof.
  induction ps as [|p ps IH]; simpl.
  - unfold delete. rewrite filter_cons. simpl. by destruct (decide (name ≠ name)).
  - destruct (decide (p.1 = name)) as [He|Hne].
    + unfold delete. rewrite (filter_cons _ (name, value)), (filter_cons _ p). simpl.
      destruct (decide (name ≠ name)); [done|].
      destruct (decide (p.1 ≠ name)); [done|]. by apply list_filter_filter_l.
    + unfold delete in *. rewrite !filter_cons.
      destruct (decide (p.1 ≠ name)); [|done]. by rewrite IH.
Qed.

Lemma getAll_set_eq name value ps : getAll name (set name value ps) = [value].
Proof.
  induction ps as [|p ps IH]; simpl.
  - unfold getAll. rewrite filter_cons. simpl. by destruct (decide (name = name)).
  - destruct (decide (p.1 = name)) as [He|Hne].
    + unfold getAll at 1. rewrite filter_cons. simpl.
      destruct (decide (name = name)); [|done].
      rewrite fmap_cons. simpl. f_equal. apply getAll_delete_eq.
    + unfold getAll in *. rewrite filter_cons.
      by destruct (decide (p.1 = name)).
Qed.

Lemma getAll_set_ne name other value ps :
  name ≠ other → getAll name (set other value ps) = getAll name ps.
Proof.
  intros Hne. induction ps as [|p ps IH]; simpl.
  - unfold getAll. rewrite filter_cons. simpl. by destruct (decide (other = name)).
  - destruct (decide (p.1 = other)) as [He|Hn].
    + unfold getAll. rewrite (filter_cons _ (other, value)), (filter_cons _ p). simpl.
      destruct (decide (other = name)); [done|].
      destruct (decide (p.1 = name)); [congruence|].
      exact (getAll_delete_ne name other ps Hne).
    + unfold getAll in *. rewrite !filter_cons.
      destruct (decide (p.1 = name)); [|done]. rewrite !fmap_cons. by rewrite IH.
Qed.

End SearchParamsFacts.

(** ** [stripIndexParam] *)

Lemma keep_loop (acc indexValues : list string) :
  foldl (fun keep indexValue =>
           if truthyString indexValue then keep ++ [indexValue] else keep)
        acc indexValues
  = acc ++ filter (fun v => v ≠ EmptyString) indexValues.
Proof.
  revert acc. induction indexValues as [|v vs IH]; intros acc; simpl.
  - by rewrite app_nil_r.
  - rewrite IH, filter_cons. destruct (decide (v ≠ EmptyString)) as [Hv|Hv].
    + destruct v; [done|]. simpl. by rewrite <- app_assoc.
    + destruct v; [done|]. by destruct Hv.
Qed.

Lemma append_loop (name : string) (ps : list (string * string)) (vs : list string) :
  foldl (fun ps toKeep => URLSearchParams.append name toKeep ps) ps vs
  = ps ++ ((fun v => (name, v)) <$> vs).
Proof.
  revert ps. induction vs as [|v vs IH]; intros ps; simpl.
  - by rewrite app_nil_r.
  - rewrite IH. unfold URLSearchParams.append. by rewrite <- app_assoc.
Qed.

(** The query after normalization: the other parameters, in place, followed
    by the non-empty [index] values. *)
Lemma stripIndexParam_searchParams (u : URL) :
  searchParams (stripIndexParam u)
  = URLSearchParams.delete "index" (searchParams u)
    ++ ((fun v => ("index", v)) <$>
          filter (fun v => v ≠ EmptyString)
                 (URLSearchParams.getAll "index" (searchParams u))).
Proof.
  unfold stripIndexParam. simpl. rewrite keep_loop. simpl. apply append_loop.
Qed.

Lemma stripIndexParam_others (u : URL) :
  URLSearchParams.delete "index" (searchParams (stripIndexParam u))
  = URLSearchParams.delete "index" (searchParams u).
Proof.
  rewrite stripIndexParam_searchParams, delete_app, delete_delete, delete_tagged.
  apply app_nil_r.
Qed.

Lemma stripIndexParam_getAll_index (u : URL) :
  URLSearchParams.getAll "index" (searchParams (stripIndexParam u))
  = filter (fun v => v ≠ EmptyString) (URLSearchParams.getAll "index" (searchParams u)).
Proof.
  by rewrite stripIndexParam_searchParams, getAll_app, getAll_delete_eq, getAll_tagged.
Qed.

Lemma stripIndexParam_getAll_other (name : string) (u : URL) :
  name ≠ "index" →
  URLSearchParams.getAll name (searchParams (stripIndexParam u))
  = URLSearchParams.getAll name (searchParams u).
Proof.
  intros Hne.
  rewrite <- (getAll_delete_ne name "index" (searchParams (stripIndexParam u))) by done.
  rewrite stripIndexParam_others. by apply getAll_delete_ne.
Qed.

(** C8.  [stripIndexParam] removes exactly the empty-valued entries of the
    [index] parameter: the [index] values of the result are the non-empty
    [index] values of the input, in their original order.  In particular
    the query [?index=&index=abc], that is the pairs [index=] and
    [index=abc], becomes [?index=abc]. *)
Theorem stripIndexParam_drops_empty_index_entries :
  (∀ u : URL,
      URLSearchParams.getAll "index" (searchParams (stripIndexParam u))
      = filter (fun v => v ≠ EmptyString)
               (URLSearchParams.getAll "index" (searchParams u)))
  ∧ (∀ o p h,
      stripIndexParam (mkURL o p [("index", EmptyString); ("index", "abc")] h)
      = mkURL o p [("index", "abc")] h).
Proof.
  split; [apply stripIndexParam_getAll_index | reflexivity].
Qed.

(** ** Strings *)

Lemma append_cons (c : ascii) (s t : string) : String c s +:+ t = String c (s +:+ t).
Proof. reflexivity. Qed.

Lemma append_nil_r (s : string) : s +:+ EmptyString = s.
Proof. induction s as [|c s IH]; [done|]. by rewrite append_cons, IH. Qed.

Lemma append_assoc (s1 s2 s3 : string) : (s1 +:+ s2) +:+ s3 = s1 +:+ (s2 +:+ s3).
Proof. induction s1 as [|c s1 IH]; [done|]. by rewrite !append_cons, IH. Qed.

Lemma length_append (s1 s2 : string) :
  String.length (s1 +:+ s2) = String.length s1 + String.length s2.
Proof. induction s1 as [|c s1 IH]; [done|]. rewrite append_cons. simpl. by rewrite IH. Qed.

Lemma prefix_append (p s t : string) :
  String.prefix p s = true → String.prefix p (s +:+ t) = true.
Proof.
  revert s. induction p as [|c p IH]; intros s; [intros _; by destruct (s +:+ t)|].
  destruct s as [|d s]; [discriminate|]. rewrite append_cons. simpl.
  destruct (ascii_dec c d); [apply IH | discriminate].
Qed.

Lemma prefix_self_append (p t : string) : String.prefix p (p +:+ t) = true.
Proof.
  induction p as [|c p IH]; [by destruct (EmptyString +:+ t)|].
  rewrite append_cons. simpl. by destruct (ascii_dec c c).
Qed.

Lemma includes_prefix (needle haystack : string) :
  String.prefix needle haystack = true → includes needle haystack = true.
Proof. intros H. destruct haystack; cbn [includes]; by rewrite H. Qed.

Lemma includes_append (needle before after : string) :
  includes needle (before +:+ needle +:+ after) = true.
Proof.
  induction before as [|c before IH].
  - change (includes needle (needle +:+ after) = true).
    apply includes_prefix, prefix_self_append.
  - rewrite append_cons. cbn [includes]. rewrite IH. apply orb_true_r.
Qed.

(** ** [singleFetchUrl] *)

Lemma singleFetchUrl_frame (u : URL) :
  origin (singleFetchUrl u) = origin u
  ∧ searchParams (singleFetchUrl u) = searchParams u
  ∧ hash (singleFetchUrl u) = hash u.
Proof. done. Qed.

(** C9.  On a URL with an absolute path, [singleFetchUrl] maps the root path
    to the sentinel path [/_root.data], and any other path to that path
    followed by [.data]. *)
Theorem singleFetchUrl_pathname (u : URL) :
  String.prefix "/" (pathname u) = true →
  (pathname u = "/" → pathname (singleFetchUrl u) = "/_root.data")
  ∧ (pathname u ≠ "/" → pathname (singleFetchUrl u) = pathname u +:+ ".data").
Proof.
  intros Habs. unfold singleFetchUrl. simpl. split.
  - intros ->. reflexivity.
  - intros Hne. apply String.eqb_neq in Hne. rewrite Hne.
    by rewrite (prefix_append _ _ ".data" Habs).
Qed.

Lemma singleFetchUrl_pathname_witness :
  pathname (singleFetchUrl (mkURL "https://remix.run" "/foo/bar" [] EmptyString))
  = "/foo/bar.data"
  ∧ pathname (singleFetchUrl (mkURL "https://remix.run" "/" [] EmptyString))
    = "/_root.data".
Proof.
  split.
  - apply (singleFetchUrl_pathname (mkURL "https://remix.run" "/foo/bar" [] EmptyString));
      [reflexivity | discriminate].
  - apply (singleFetchUrl_pathname (mkURL "https://remix.run" "/" [] EmptyString));
      reflexivity.
Defined.

(** ** Joined identifier lists *)

Lemma join_cons (sep s : string) (l : list string) :
  join sep (s :: l) = match l with [] => s | _ => s +:+ sep +:+ join sep l end.
Proof. by destruct l. Qed.

Lemma length_join_comma (l : list string) :
  l ≠ [] → S (String.length (join "," l)) = weight l.
Proof.
  induction l as [|s l IH]; [done|]. intros _.
  destruct l as [|s' l]; [simpl; lia|].
  rewrite (join_cons _ s), !length_append.
  specialize (IH ltac:(done)).
  change (weight (s :: s' :: l)) with (S (String.length s) + weight (s' :: l)).
  change (String.length ",") with 1. lia.
Qed.

Lemma sublist_weight (l1 l2 : list string) :
  l1 `sublist_of` l2 → weight l1 ≤ weight l2 ∧ (weight l1 = weight l2 → l1 = l2).
Proof.
  induction 1 as [|x l1 l2 Hsub [IHle IHeq]|x l1 l2 Hsub [IHle IHeq]]; simpl.
  - done.
  - split; [lia|]. intros Heq. f_equal. apply IHeq. lia.
  - split; [lia|]. intros Heq. lia.
Qed.

(** Joining with commas is injective between a list of non-empty strings and
    its sublists. *)
Lemma join_sublist_inj (l1 l2 : list string) :
  l1 `sublist_of` l2 → (∀ s, s ∈ l2 → s ≠ EmptyString) →
  join "," l1 = join "," l2 → l1 = l2.
Proof.
  intros Hsub Hne Hjoin. apply sublist_weight; [done|].
  destruct l2 as [|s2 l2].
  { by apply sublist_nil_r in Hsub as ->. }
  rewrite <- (length_join_comma (s2 :: l2)) by done.
  destruct l1 as [|s1 l1].
  - exfalso. rewrite join_cons in Hjoin. destruct l2 as [|s3 l2].
    + apply (Hne s2); [left | done].
    + destruct s2; [|done]. apply (Hne EmptyString); [left | done].
  - rewrite <- (length_join_comma (s1 :: l1)) by done. by rewrite Hjoin.
Qed.

Lemma filter_sublist_mono {A} (P : A → Prop) `{!∀ x, Decision (P x)} (l1 l2 : list A) :
  l1 `sublist_of` l2 → filter P l1 `sublist_of` filter P l2.
Proof.
  induction 1 as [|x l1 l2 Hsub IH|x l1 l2 Hsub IH]; [done|..];
    rewrite ?filter_cons; destruct (decide (P x)); try done; by constructor.
Qed.

(** A duplicate-free list and a sublist of it with the same elements are
    equal. *)
Lemma sublist_same_elements {A} (l1 l2 : list A) :
  l1 `sublist_of` l2 → NoDup l2 → (∀ x, x ∈ l2 → x ∈ l1) → l1 = l2.
Proof.
  induction 1 as [|x l1 l2 Hsub IH|x l1 l2 Hsub IH]; intros Hnd Hin; [done|..].
  - apply NoDup_cons in Hnd as [Hx Hnd]. f_equal. apply IH; [done|].
    intros y Hy. specialize (Hin y ltac:(by right)).
    apply elem_of_cons in Hin as [->|]; done.
  - apply NoDup_cons in Hnd as [Hx Hnd]. exfalso. apply Hx.
    apply (elem_of_sublist l1); [|done]. apply Hin. by left.
Qed.

(** ** [addRevalidationParam] *)

Section Revalidation.
Variable manifest : AssetsManifest.
Variable routeModules : gmap string RouteModule.
Implicit Types (matches : list DataStrategyMatch) (u : URL).

Lemma filterM_routeHasLoader (arr : list string) :
  (∀ id, id ∈ arr → is_Some (routes manifest !! id)) →
  filterM (routeHasLoader manifest) arr
  = Normal (filter (fun id => hasServerStep manifest id = true) arr).
Proof.
  induction arr as [|id arr IH]; intros Hcov; [done|].
  destruct (Hcov id ltac:(by left)) as [r Hr].
  cbn [filterM]. rewrite IH by (intros; apply Hcov; by right).
  unfold routeHasLoader. rewrite Hr. cbn.
  replace (hasServerStep manifest id) with (hasLoader r)
    by (unfold hasServerStep; by rewrite Hr).
  by destruct (hasLoader r); destruct (decide _).
Qed.

Lemma genRouteIds_covered (arr : list string) :
  (∀ id, id ∈ arr → is_Some (routes manifest !! id)) →
  genRouteIds manifest arr
  = Normal (join "," (filter (fun id => hasServerStep manifest id = true) arr)).
Proof. intros Hcov. unfold genRouteIds. by rewrite filterM_routeHasLoader. Qed.

Lemma declaresShouldRevalidate_spec (m : DataStrategyMatch) :
  declaresShouldRevalidate routeModules m = true ↔ DeclaresHook routeModules m.
Proof.
  unfold declaresShouldRevalidate, DeclaresHook.
  destruct (routeModules !! Route.id (route m)) as [module|].
  - rewrite bool_decide_eq_true. split.
    + intros Hs. by exists module.
    + by intros (module' & [= <-] & Hs).
  - split; [done|]. by intros (module & ? & _).
Qed.

Lemma some_declares_spec matches :
  existsb (declaresShouldRevalidate routeModules) matches = true
  ↔ ∃ m, m ∈ matches ∧ DeclaresHook routeModules m.
Proof.
  rewrite existsb_exists. split; intros (m & Hin & Hm); exists m.
  - split; [by apply list_elem_of_In | by apply declaresShouldRevalidate_spec].
  - split; [by apply list_elem_of_In | by apply declaresShouldRevalidate_spec].
Qed.

Lemma loading_covered matches :
  manifestCovers manifest matches → manifestCovers manifest (loading matches).
Proof.
  intros Hcov id Hid. apply Hcov. unfold routeIds, loading in *.
  apply list_elem_of_fmap in Hid as (m & -> & Hm).
  apply list_elem_of_filter in Hm as [_ Hm].
  by apply (list_elem_of_fmap_2 (fun m => Route.id (route m))).
Qed.

Lemma loading_sublist matches :
  serverStepIds manifest (loading matches) `sublist_of` serverStepIds manifest matches.
Proof. apply filter_sublist_mono, fmap_sublist, sublist_filter. Qed.

(** What the function computes when the manifest covers the matches. *)
Lemma addRevalidationParam_covered matches u :
  manifestCovers manifest matches →
  addRevalidationParam manifest routeModules matches u
  = Normal
      (if existsb (declaresShouldRevalidate routeModules) matches
          && negb (String.eqb (join "," (serverStepIds manifest matches))
                              (join "," (serverStepIds manifest (loading matches))))
       then withSearchParams
              (URLSearchParams.set "_routes"
                 (join "," (serverStepIds manifest (loading matches)))
                 (searchParams u)) u
       else u).
Proof.
  intros Hcov. unfold addRevalidationParam.
  destruct (existsb _ matches); [|done].
  fold (loading matches). fold (routeIds matches) (routeIds (loading matches)).
  rewrite (genRouteIds_covered _ Hcov). cbn.
  rewrite (genRouteIds_covered _ (loading_covered _ Hcov)). cbn.
  fold (serverStepIds manifest matches) (serverStepIds manifest (loading matches)).
  by destruct (negb _).
Qed.

Lemma addRevalidationParam_no_hook matches u :
  existsb (declaresShouldRevalidate routeModules) matches = false →
  addRevalidationParam manifest routeModules matches u = Normal u.
Proof. intros Hno. unfold addRevalidationParam. by rewrite Hno. Qed.

Lemma addRevalidationParam_frame matches u :
  manifestCovers manifest matches →
  ∃ u', addRevalidationParam manifest routeModules matches u = Normal u'
        ∧ origin u' = origin u ∧ pathname u' = pathname u ∧ hash u' = hash u
        ∧ URLSearchParams.delete "_routes" (searchParams u')
          = URLSearchParams.delete "_routes" (searchParams u).
Proof.
  intros Hcov. eexists. split; [by apply addRevalidationParam_covered|].
  destruct (_ && _); [|done]. simpl. by rewrite delete_set.
Qed.

(** For duplicate-free, non-empty identifiers the comparison of the joined
    strings decides whether the two sets of identifiers differ. *)
Lemma joined_ids_differ matches :
  NoDup (routeIds matches) →
  (∀ id, id ∈ routeIds matches → id ≠ EmptyString) →
  negb (String.eqb (join "," (serverStepIds manifest matches))
                   (join "," (serverStepIds manifest (loading matches)))) = true
  ↔ (list_to_set (serverStepIds manifest matches) : gset string)
    ≠ list_to_set (serverStepIds manifest (loading matches)).
Proof.
  intros Hnd Hne. rewrite negb_true_iff, String.eqb_neq.
  assert (NoDup (serverStepIds manifest matches)) as Hnd' by by apply NoDup_filter.
  split; intros Hdiff Heq; apply Hdiff.
  - f_equal. symmetry. apply sublist_same_elements; [apply loading_sublist | done |].
    intros id Hid. by rewrite <- (elem_of_list_to_set (C:=gset string)), <- Heq,
      elem_of_list_to_set.
  - f_equal. symmetry. apply join_sublist_inj; [apply loading_sublist | | done].
    intros id Hid. apply Hne. by apply list_elem_of_filter in Hid as [_ ?].
Qed.

End Revalidation.

(** C10.  Each transform of the target URL changes nothing outside its
    scope.  [stripIndexParam] keeps the origin, the path, the fragment and
    the parameters other than [index] (their names, values and order);
    [addRevalidationParam], which returns whenever the manifest covers the
    matches, keeps the origin, the path, the fragment and the parameters
    other than [_routes]; [singleFetchUrl] keeps the origin, the whole query
    and the fragment. *)
Theorem url_transforms_frame :
  (∀ u : URL,
      origin (stripIndexParam u) = origin u
      ∧ pathname (stripIndexParam u) = pathname u
      ∧ hash (stripIndexParam u) = hash u
      ∧ URLSearchParams.delete "index" (searchParams (stripIndexParam u))
        = URLSearchParams.delete "index" (searchParams u))
  ∧ (∀ manifest routeModules matches (u : URL),
      manifestCovers manifest matches →
      ∃ u', addRevalidationParam manifest routeModules matches u = Normal u'
            ∧ origin u' = origin u
            ∧ pathname u' = pathname u
            ∧ hash u' = hash u
            ∧ URLSearchParams.delete "_routes" (searchParams u')
              = URLSearchParams.delete "_routes" (searchParams u))
  ∧ (∀ u : URL,
      origin (singleFetchUrl u) = origin u
      ∧ searchParams (singleFetchUrl u) = searchParams u
      ∧ hash (singleFetchUrl u) = hash u).
Proof.
  split; [|split].
  - intros u. repeat split. apply stripIndexParam_others.
  - intros. by apply addRevalidationParam_frame.
  - apply singleFetchUrl_frame.
Qed.

(** ** The consolidated URL *)

Lemma consolidatedUrl_covered manifest routeModules request matches :
  manifestCovers manifest matches →
  ∃ withParam,
    addRevalidationParam manifest routeModules matches (stripIndexParam (url request))
    = Normal withParam
    ∧ Loader.consolidatedUrl manifest routeModules request matches
      = Normal (singleFetchUrl withParam).
Proof.
  intros Hcov. unfold Loader.consolidatedUrl.
  rewrite (addRevalidationParam_covered _ _ _ _ Hcov). by eexists.
Qed.

(** C2, as the code has it.  For a navigation whose matched routes have
    distinct, non-empty identifiers covered by the manifest: the step sets
    [_routes] on the consolidated URL exactly when some matched route
    declares [shouldRevalidate] and the set of matched identifiers with a
    server data step differs from the set of [shouldLoad] identifiers with a
    server data step; the parameter then has the single value made of the
    latter identifiers, in match order, joined by commas.  Otherwise the step
    leaves the query alone: the consolidated URL has the [_routes] entries of
    the navigation URL, hence none when the navigation URL has none. *)
Theorem consolidatedUrl_scoping manifest routeModules request matches :
  manifestCovers manifest matches →
  NoDup (routeIds matches) →
  (∀ id, id ∈ routeIds matches → id ≠ EmptyString) →
  let hook := ∃ m, m ∈ matches ∧ DeclaresHook routeModules m in
  let matched : gset string := list_to_set (serverStepIds manifest matches) in
  let load : gset string := list_to_set (serverStepIds manifest (loading matches)) in
  ∃ target,
    Loader.consolidatedUrl manifest routeModules request matches = Normal target
    ∧ (hook ∧ matched ≠ load →
         URLSearchParams.getAll "_routes" (searchParams target)
         = [join "," (serverStepIds manifest (loading matches))])
    ∧ (¬ (hook ∧ matched ≠ load) →
         URLSearchParams.getAll "_routes" (searchParams target)
         = URLSearchParams.getAll "_routes" (searchParams (url request))).
Proof.
  intros Hcov Hnd Hne hook matched load.
  unfold Loader.consolidatedUrl.
  rewrite (addRevalidationParam_covered _ _ _ _ Hcov). cbn.
  eexists. split; [done|].
  assert (URLSearchParams.getAll "_routes" (searchParams (stripIndexParam (url request)))
          = URLSearchParams.getAll "_routes" (searchParams (url request))) as Hstripped.
  { by rewrite stripIndexParam_getAll_other. }
  pose proof (some_declares_spec routeModules matches) as Hhook.
  pose proof (joined_ids_differ manifest matches Hnd Hne) as Hdiff.
  destruct (existsb _ matches) eqn:Hsome; simpl.
  - destruct (negb _) eqn:Hcmp; simpl.
    + split; [intros _; apply getAll_set_eq|].
      intros Hnot. destruct Hnot. split; [by apply Hhook | by apply Hdiff].
    + split; [|done]. intros [_ Hsets]. apply Hdiff in Hsets. congruence.
  - split; [|done]. intros [Hh _]. apply Hhook in Hh. congruence.
Qed.

Lemma Sample_covered : manifestCovers Sample.manifest Sample.matches.
Proof.
  intros id Hid. unfold routeIds, Sample.matches in Hid. simpl in Hid.
  repeat (apply elem_of_cons in Hid as [->|Hid]); [by eexists..|].
  by apply elem_of_nil in Hid.
Defined.

Lemma Sample_ids_nonempty : ∀ id, id ∈ routeIds Sample.matches → id ≠ EmptyString.
Proof.
  intros id Hid. unfold routeIds, Sample.matches in Hid. simpl in Hid.
  repeat (apply elem_of_cons in Hid as [->|Hid]); [discriminate..|].
  by apply elem_of_nil in Hid.
Defined.

Lemma Sample_declares :
  ∃ m, m ∈ Sample.matches ∧ DeclaresHook Sample.routeModules m.
Proof.
  exists {| route := {| Route.id := "routes/a" |}; shouldLoad := false |}.
  split; [right; left|]. eexists. split; [reflexivity | by eexists].
Defined.

Lemma url_transforms_frame_witness :
  ∃ u', addRevalidationParam Sample.manifest Sample.routeModules Sample.matches
          (stripIndexParam (url Sample.request)) = Normal u'
        ∧ origin u' = "https://remix.run"
        ∧ pathname u' = "/a/b"
        ∧ URLSearchParams.delete "_routes" (searchParams u') = [("q", "1")].
Proof.
  destruct (proj1 (proj2 url_transforms_frame) Sample.manifest Sample.routeModules
              Sample.matches (stripIndexParam (url Sample.request)) Sample_covered)
    as (u' & Heq & Ho & Hp & _ & Hq).
  exists u'. split; [exact Heq|]. split; [exact Ho|]. split; [exact Hp | exact Hq].
Defined.

Lemma consolidatedUrl_scoping_witness :
  ∃ target,
    Loader.consolidatedUrl Sample.manifest Sample.routeModules Sample.request
      Sample.matches = Normal target
    ∧ URLSearchParams.getAll "_routes" (searchParams target) = ["root"].
Proof.
  destruct (consolidatedUrl_scoping Sample.manifest Sample.routeModules Sample.request
              Sample.matches Sample_covered ltac:(compute_done) Sample_ids_nonempty)
    as (target & Heq & Hyes & _).
  exists target. split; [exact Heq|]. apply Hyes. split; [exact Sample_declares|].
  compute_done.
Defined.

(** The last clause of C2 as the specification words it fails: on a
    navigation whose URL already has a [_routes] parameter, with no
    [shouldRevalidate] hook anywhere, the consolidated URL still carries that
    parameter. *)
Lemma consolidatedUrl_keeps_routes_param_of_request :
  (∀ m, m ∈ Sample.matches → ¬ DeclaresHook Sample.noModules m)
  ∧ Loader.consolidatedUrl Sample.manifest Sample.noModules Sample.requestWithRoutes
      Sample.matches
    = Normal (mkURL "https://remix.run" "/a/b.data" [("_routes", "routes/a")] EmptyString).
Proof.
  split; [|reflexivity].
  intros m _ (module & Hlookup & _). unfold Sample.noModules in Hlookup.
  by rewrite lookup_empty in Hlookup.
Qed.

(** An empty route identifier is the one case in which the comparison of the
    joined strings misses a difference between the two sets: a lone route
    [""] with a loader that need not load joins to the same string as no
    route at all. *)
Remark empty_route_id_not_scoped :
  let manifest := {| routes := {[ EmptyString := {| hasLoader := true |} ]} |} in
  let routeModules : gmap string RouteModule :=
    {[ EmptyString := {| shouldRevalidate := Some (fun _ => true) |} ]} in
  let matches := [ {| route := {| Route.id := EmptyString |}; shouldLoad := false |} ] in
  (∃ m, m ∈ matches ∧ DeclaresHook routeModules m)
  ∧ serverStepIds manifest matches = [EmptyString]
  ∧ serverStepIds manifest (loading matches) = []
  ∧ addRevalidationParam manifest routeModules matches
      (mkURL "https://remix.run" "/" [] EmptyString)
    = Normal (mkURL "https://remix.run" "/" [] EmptyString).
Proof.
  split; [|by vm_compute].
  eexists. split; [by left|]. eexists. split; [apply lookup_singleton_eq | by eexists].
Qed.

(** ** [unwrapSingleFetchResult] *)

(** C5.  A result that carries none of the tags [error], [redirect] and
    [data] makes [unwrapSingleFetchResult] throw an [Error] whose message
    names the route; an action call whose response decodes to such a result
    throws that error. *)
Theorem unwrap_untagged_throws (result : SingleFetchResult) (routeId : string) :
  error result = None → redirectResult result = None → data result = None →
  let message :=
    "No action response found for routeId " +:+ dquote +:+ routeId +:+ dquote in
  unwrapSingleFetchResult result routeId = Throw (JError message)
  ∧ includes routeId message = true
  ∧ (∀ (RequestInit : Type) createRequestInit fetch request (init : RequestInit),
        createRequestInit request = Normal init →
        fetchAndDecode fetch (singleFetchUrl (url request)) (Some init) = Normal result →
        Action.singleFetch createRequestInit fetch request routeId
        = Throw (JError message)).
Proof.
  intros He Hr Hd message.
  assert (unwrapSingleFetchResult result routeId = Throw (JError message)) as Hunwrap.
  { unfold unwrapSingleFetchResult. by rewrite He, Hr, Hd. }
  split; [done|]. split.
  - unfold message. rewrite <- append_assoc. apply includes_append.
  - intros RequestInit createRequestInit fetch request init Hinit Hdecoded.
    unfold Action.singleFetch. rewrite Hinit. cbn. by rewrite Hdecoded.
Qed.

Lemma unwrap_untagged_throws_witness :
  unwrapSingleFetchResult {| error := None; redirectResult := None; data := None |}
    "routes/a"
  = Throw (JError ("No action response found for routeId "
                   +:+ dquote +:+ "routes/a" +:+ dquote)).
Proof.
  exact (proj1 (unwrap_untagged_throws
                  {| error := None; redirectResult := None; data := None |} "routes/a"
                  eq_refl eq_refl eq_refl)).
Defined.

Lemma redirect_well_formed (r : RedirectResult) (headers : gmap string string) :
  wellFormedRedirect r →
  Router.redirect (redirect r) (status r) headers
  = Normal (JRedirect (redirect r) (status r) headers).
Proof.
  intros (Hnorm & Hvalue & Hstatus). unfold Router.redirect.
  rewrite Hnorm, Hvalue. cbn zeta.
  rewrite Z.mod_small by lia.
  destruct (Z.leb_spec 200 (status r)); [|lia].
  destruct (Z.leb_spec (status r) 599); [|lia]. done.
Qed.


Lemma Sample_login_well_formed :
  wellFormedRedirect
    {| redirect := "/login"; status := 302; revalidate := true; reload := false |}.
Proof. split; [reflexivity|]. split; [reflexivity|]. simpl. lia. Defined.





(** ** The strategy *)

Lemma strategyOf_loader (request : Request) :
  strategyOf request = LoaderStrategy ↔ method request = "GET".
Proof.
  unfold strategyOf. destruct (String.eqb_spec (method request) "GET"); simpl; split;
    congruence.
Qed.

(** ** [fetchAndDecode] *)

Lemma invariant_fails (value : option bool) (message : string) :
  value ≠ Some true → invariant value message = Throw (JError message).
Proof. by destruct value as [[]|]. Qed.

Lemma fetchAndDecode_mismatch {RequestInit B D : Type} `{!Decode B D}
    (fetch : URL → option RequestInit → Completion (Response B)) url init res :
  fetch url init = Normal res →
  ¬ hasTurboContentType res →
  fetchAndDecode fetch url init = Throw (JError "Expected a text/x-turbo response").
Proof.
  intros Hres Hct. unfold fetchAndDecode. rewrite Hres. cbn.
  rewrite invariant_fails; [done|].
  intros Hsome. apply Hct. destruct (contentType res) as [ct|] eqn:E; [|done].
  exists ct. split; [done|]. by injection Hsome.
Qed.

(** ** The loader's shared promise *)

Lemma invocations_cons (ev : Loader.Event) (schedule : list Loader.Event) :
  invocations (ev :: schedule) = invocations [ev] + invocations schedule.
Proof.
  unfold invocations. rewrite !filter_cons, filter_nil.
  by destruct (decide (Loader.isInvoke ev = true)).
Qed.

Section LoaderFacts.
Context {RequestInit : Type}.
Variable manifest : AssetsManifest.
Variable routeModules : gmap string RouteModule.
Variable fetch :
  URL → option RequestInit
  → Completion (Response (list (string * SingleFetchResultOf Encoded))).
Variable request : Request.
Variable matches : list DataStrategyMatch.

Local Abbreviation step := (Loader.step manifest routeModules fetch request matches).
Local Abbreviation run := (Loader.run manifest routeModules fetch request matches).
Local Abbreviation consolidated :=
  (Loader.consolidatedUrl manifest routeModules request matches).

Definition awaitsFirst (call : string * nat) : Prop := call.2 = 0.

Definition readResults (results : SingleFetchResults) (c : Loader.Settled) : Prop :=
  Loader.observed c = Some 0
  ∧ Loader.outcome c = Loader.continue (Loader.caller c) results.

Definition sawRejection (e : JsValue) (c : Loader.Settled) : Prop :=
  Loader.observed c = None ∧ Loader.outcome c = Throw e.

(** The states a navigation can be in: nothing called yet, or exactly one
    promise, which is the value of the shared variable and the one every
    parked call awaits. *)
Inductive Shape : Loader.State → Prop :=
| Shape_idle : Shape Loader.initial
| Shape_pending target waiting :
    consolidated = Normal target →
    Forall awaitsFirst waiting →
    Shape {| Loader.singleFetchPromise := Some 0;
             Loader.promises := [Loader.Pending target];
             Loader.objects := [];
             Loader.network := [target];
             Loader.awaiting := waiting;
             Loader.settled := [] |}
| Shape_fulfilled target results waiting finished :
    consolidated = Normal target →
    fetchAndDecode fetch target None = Normal results →
    Forall awaitsFirst waiting →
    Forall (readResults results) finished →
    Shape {| Loader.singleFetchPromise := Some 0;
             Loader.promises := [Loader.Fulfilled 0];
             Loader.objects := [results];
             Loader.network := [target];
             Loader.awaiting := waiting;
             Loader.settled := finished |}
| Shape_rejected target e waiting finished :
    consolidated = Normal target →
    fetchAndDecode fetch target None = Throw e →
    Forall awaitsFirst waiting →
    Forall (sawRejection e) finished →
    Shape {| Loader.singleFetchPromise := Some 0;
             Loader.promises := [Loader.Rejected e];
             Loader.objects := [];
             Loader.network := [target];
             Loader.awaiting := waiting;
             Loader.settled := finished |}
| Shape_unsent e waiting finished :
    consolidated = Throw e →
    Forall awaitsFirst waiting →
    Forall (sawRejection e) finished →
    Shape {| Loader.singleFetchPromise := Some 0;
             Loader.promises := [Loader.Rejected e];
             Loader.objects := [];
             Loader.network := [];
             Loader.awaiting := waiting;
             Loader.settled := finished |}.

Lemma awaited_first waiting k routeId p :
  Forall awaitsFirst waiting → waiting !! k = Some (routeId, p) → p = 0.
Proof. intros Hall Hk. exact (Forall_lookup_1 _ _ _ _ Hall Hk). Qed.

Lemma step_shape s ev s' : Shape s → step s ev = Some s' → Shape s'.
Proof.
  intros Hs Hstep. destruct ev as [routeId|p|k]; simpl in Hstep.
  - (* Invoke *)
    injection Hstep as <-. destruct Hs; unfold Loader.invoke; simpl.
    + unfold Loader.makeSingleFetchCall.
      destruct consolidated as [target|e] eqn:Hurl; simpl.
      * apply Shape_pending; [done|]. by repeat constructor.
      * apply Shape_unsent; [done| |by constructor]. by repeat constructor.
    + apply Shape_pending; [done|]. apply Forall_app; split; [done|]. by repeat constructor.
    + eapply Shape_fulfilled; [done..| |done].
      apply Forall_app; split; [done|]. by repeat constructor.
    + eapply Shape_rejected; [done..| |done].
      apply Forall_app; split; [done|]. by repeat constructor.
    + eapply Shape_unsent; [done| |done].
      apply Forall_app; split; [done|]. by repeat constructor.
  - (* Settle *)
    unfold Loader.settle in Hstep. destruct Hs; simpl in Hstep;
      destruct p as [|p]; simpl in Hstep; try discriminate.
    destruct (fetchAndDecode fetch target None) as [results|e] eqn:Hdec;
      injection Hstep as <-; simpl.
    + by eapply Shape_fulfilled.
    + by eapply Shape_rejected.
  - (* Resume *)
    unfold Loader.resume in Hstep.
    destruct Hs as [|target waiting Hurl Hw|target results waiting finished Hurl Hdec Hw Hf
                    |target e waiting finished Hurl Hdec Hw Hf|e waiting finished Hurl Hw Hf];
      simpl in Hstep; [done|..];
      destruct (waiting !! k) as [[routeId p]|] eqn:Hk; try discriminate;
      pose proof (awaited_first _ _ _ _ Hw Hk) as ->; simpl in Hstep;
      try discriminate; injection Hstep as <-; unfold Loader.finish; simpl.
    + eapply Shape_fulfilled; [done..|by apply Forall_delete|].
      apply Forall_app; split; [done|]. by repeat constructor.
    + eapply Shape_rejected; [done..|by apply Forall_delete|].
      apply Forall_app; split; [done|]. by repeat constructor.
    + eapply Shape_unsent; [done|by apply Forall_delete|].
      apply Forall_app; split; [done|]. by repeat constructor.
Qed.

Lemma run_shape schedule s s' : Shape s → run schedule s = Some s' → Shape s'.
Proof.
  revert s. induction schedule as [|ev schedule IH]; intros s Hs Hrun; simpl in Hrun.
  - by injection Hrun as <-.
  - destruct (step s ev) as [s1|] eqn:Hstep; [|done].
    eapply IH; [|exact Hrun]. by eapply step_shape.
Qed.

Lemma step_promise_cell s ev s' :
  step s ev = Some s' →
  is_Some (Loader.singleFetchPromise s')
  ↔ is_Some (Loader.singleFetchPromise s) ∨ Loader.isInvoke ev = true.
Proof.
  intros Hstep. destruct ev as [routeId|p|k]; simpl in Hstep.
  - injection Hstep as <-. split; [by right|]. intros _.
    unfold Loader.invoke, Loader.makeSingleFetchCall.
    destruct (Loader.singleFetchPromise s) eqn:Hcell; [by rewrite Hcell|].
    by destruct consolidated.
  - unfold Loader.settle in Hstep.
    destruct (Loader.promises s !! p) as [[target| |]|]; try discriminate.
    destruct (fetchAndDecode fetch target None); injection Hstep as <-; simpl;
      split; [by left | by intros [?|?] | by left | by intros [?|?]].
  - unfold Loader.resume in Hstep.
    destruct (Loader.awaiting s !! k) as [[routeId p]|]; [|done].
    destruct (Loader.promises s !! p) as [[target|ref|e]|]; try discriminate.
    + destruct (Loader.objects s !! ref); [|done]. injection Hstep as <-. simpl.
      split; [by left | by intros [?|?]].
    + injection Hstep as <-. simpl. split; [by left | by intros [?|?]].
Qed.

Lemma run_promise_cell schedule s s' :
  run schedule s = Some s' →
  is_Some (Loader.singleFetchPromise s')
  ↔ is_Some (Loader.singleFetchPromise s) ∨ existsb Loader.isInvoke schedule = true.
Proof.
  revert s. induction schedule as [|ev schedule IH]; intros s Hrun; simpl in Hrun.
  - injection Hrun as <-. simpl. split; [by left | by intros [?|?]].
  - destruct (step s ev) as [s1|] eqn:Hstep; [|done].
    rewrite (IH _ Hrun), (step_promise_cell _ _ _ Hstep). simpl.
    rewrite orb_true_iff. tauto.
Qed.

Lemma step_calls s ev s' :
  step s ev = Some s' →
  length (Loader.awaiting s') + length (Loader.settled s')
  = length (Loader.awaiting s) + length (Loader.settled s) + invocations [ev].
Proof.
  intros Hstep. destruct ev as [routeId|p|k]; simpl in Hstep.
  - injection Hstep as <-. unfold Loader.invoke, Loader.makeSingleFetchCall.
    destruct (Loader.singleFetchPromise s); [|destruct consolidated];
      simpl; rewrite length_app; simpl; unfold invocations; simpl; lia.
  - unfold Loader.settle in Hstep.
    destruct (Loader.promises s !! p) as [[target| |]|]; try discriminate.
    destruct (fetchAndDecode fetch target None); injection Hstep as <-; simpl;
      unfold invocations; simpl; lia.
  - unfold Loader.resume in Hstep.
    destruct (Loader.awaiting s !! k) as [[routeId p]|] eqn:Hk; [|done].
    assert (length (delete k (Loader.awaiting s)) + 1 = length (Loader.awaiting s))
      as Hdel.
    { rewrite length_delete by done. apply lookup_lt_Some in Hk. lia. }
    destruct (Loader.promises s !! p) as [[target|ref|e]|]; try discriminate.
    + destruct (Loader.objects s !! ref); [|done]. injection Hstep as <-. simpl.
      rewrite length_app. unfold invocations. simpl. lia.
    + injection Hstep as <-. simpl.
      rewrite length_app. unfold invocations. simpl. lia.
Qed.

Lemma run_calls schedule s s' :
  run schedule s = Some s' →
  length (Loader.awaiting s') + length (Loader.settled s')
  = length (Loader.awaiting s) + length (Loader.settled s) + invocations schedule.
Proof.
  revert s. induction schedule as [|ev schedule IH]; intros s Hrun; simpl in Hrun.
  - injection Hrun as <-. unfold invocations. simpl. lia.
  - destruct (step s ev) as [s1|] eqn:Hstep; [|done].
    rewrite (IH _ Hrun), (step_calls _ _ _ Hstep), (invocations_cons ev schedule). lia.
Qed.

(** C1.  When the manifest covers the matches, so that the URL of the
    consolidated request can be built: after any schedule of calls,
    arrivals and resumptions, the network has seen exactly one request (to
    the consolidated URL) if some route called [singleFetch] and none
    otherwise; at most one promise and at most one results object were ever
    created; every call made is either parked on the promise held by the
    shared variable or finished; and a call has finished only after that
    promise settled: either it resolved with the one results object the
    response was decoded into, and the call read that object and returned
    what [singleFetch] computes from it for its route, or it was rejected,
    and the call threw the error it was rejected with. *)
Theorem loader_issues_one_request schedule s :
  manifestCovers manifest matches →
  run schedule Loader.initial = Some s →
  ∃ target,
    consolidated = Normal target
    ∧ Loader.network s = (if existsb Loader.isInvoke schedule then [target] else [])
    ∧ length (Loader.promises s) ≤ 1
    ∧ length (Loader.objects s) ≤ 1
    ∧ length (Loader.awaiting s) + length (Loader.settled s) = invocations schedule
    ∧ (∀ routeId p, (routeId, p) ∈ Loader.awaiting s →
                    Loader.singleFetchPromise s = Some p)
    ∧ (∀ c, c ∈ Loader.settled s →
         (∃ results,
             fetchAndDecode fetch target None = Normal results
             ∧ Loader.promises s = [Loader.Fulfilled 0]
             ∧ Loader.objects s = [results]
             ∧ Loader.observed c = Some 0
             ∧ Loader.outcome c = Loader.continue (Loader.caller c) results)
         ∨ (∃ e,
             fetchAndDecode fetch target None = Throw e
             ∧ Loader.promises s = [Loader.Rejected e]
             ∧ Loader.objects s = []
             ∧ Loader.observed c = None
             ∧ Loader.outcome c = Throw e)).
Proof.
  intros Hcov Hrun.
  destruct (consolidatedUrl_covered manifest routeModules request matches Hcov)
    as (withParam & _ & Hurl).
  exists (singleFetchUrl withParam). split; [done|].
  pose proof (run_shape _ _ _ Shape_idle Hrun) as Hshape.
  pose proof (run_promise_cell _ _ _ Hrun) as Hcell.
  pose proof (run_calls _ _ _ Hrun) as Hcalls. simpl in Hcalls.
  assert (∀ waiting (routeId : string) (p : nat),
             Forall awaitsFirst waiting → (routeId, p) ∈ waiting → Some 0 = Some p)
    as Hparked.
  { intros waiting routeId p Hall Hin. f_equal. symmetry.
    by apply (proj1 (Forall_forall _ _) Hall (routeId, p)). }
  destruct Hshape as [|target waiting Hurl' Hw|target results waiting finished Hurl' Hdec Hw Hf
                      |target e waiting finished Hurl' Hdec Hw Hf|e waiting finished Hurl' Hw Hf];
    simpl in *.
  - destruct (existsb Loader.isInvoke schedule).
    + destruct Hcell as [_ Hcell]. by destruct (Hcell (or_intror eq_refl)).
    + repeat split; [lia|lia|done|..]; intros ? ? ; try intros ?; by apply elem_of_nil in H.
  - assert (target = singleFetchUrl withParam) as -> by congruence.
    destruct (existsb Loader.isInvoke schedule).
    + repeat split; [lia|lia|done|by eauto|]. intros ? Hin. by apply elem_of_nil in Hin.
    + destruct Hcell as [Hcell _]. by destruct (Hcell ltac:(by eexists)) as [[]|].
  - assert (target = singleFetchUrl withParam) as -> by congruence.
    destruct (existsb Loader.isInvoke schedule).
    + repeat split; [lia|lia|done|by eauto|]. intros c Hin.
      destruct (proj1 (Forall_forall _ _) Hf c Hin) as [Hobs Hout].
      left. exists results. by repeat split.
    + destruct Hcell as [Hcell _]. by destruct (Hcell ltac:(by eexists)) as [[]|].
  - assert (target = singleFetchUrl withParam) as -> by congruence.
    destruct (existsb Loader.isInvoke schedule).
    + repeat split; [lia|lia|done|by eauto|]. intros c Hin.
      destruct (proj1 (Forall_forall _ _) Hf c Hin) as [Hobs Hout].
      right. exists e. by repeat split.
    + destruct Hcell as [Hcell _]. by destruct (Hcell ltac:(by eexists)) as [[]|].
  - congruence.
Qed.

End LoaderFacts.

Lemma shape_mismatch {RequestInit : Type} manifest routeModules
    (fetch : URL → option RequestInit
             → Completion (Response (list (string * SingleFetchResultOf Encoded))))
    request matches s target res :
  Loader.consolidatedUrl manifest routeModules request matches = Normal target →
  fetch target None = Normal res →
  ¬ hasTurboContentType res →
  Shape manifest routeModules fetch request matches s →
  Loader.objects s = []
  ∧ ∀ c, c ∈ Loader.settled s →
         Loader.observed c = None
         ∧ Loader.outcome c = Throw (JError "Expected a text/x-turbo response").
Proof.
  intros Hurl Hres Hct Hshape.
  pose proof (fetchAndDecode_mismatch (D:=SingleFetchResults) fetch _ _ _ Hres Hct) as Hthrow.
  destruct Hshape as [|target' waiting Hurl' Hw|target' results waiting finished Hurl' Hdec Hw Hf
                      |target' e waiting finished Hurl' Hdec Hw Hf|e waiting finished Hurl' Hw Hf];
    simpl; try (assert (target' = target) as -> by congruence).
  - split; [done|]. intros c Hin. by apply elem_of_nil in Hin.
  - split; [done|]. intros c Hin. by apply elem_of_nil in Hin.
  - congruence.
  - split; [done|]. intros c Hin.
    assert (e = JError "Expected a text/x-turbo response") as -> by congruence.
    exact (proj1 (Forall_forall _ _) Hf c Hin).
  - congruence.
Qed.

(** C3.  A response whose [Content-Type] lacks [text/x-turbo] (or is absent)
    makes the request fail with the error [Expected a text/x-turbo response].
    In a loader navigation no results object is ever created and every call
    that finishes, under any schedule, throws that error; an action call
    throws it too. *)
Theorem protocol_mismatch_fails_every_caller :
  (∀ (RequestInit : Type) manifest routeModules
     (fetch : URL → option RequestInit
              → Completion (Response (list (string * SingleFetchResultOf Encoded))))
     request matches schedule s target res,
      Loader.consolidatedUrl manifest routeModules request matches = Normal target →
      fetch target None = Normal res →
      ¬ hasTurboContentType res →
      Loader.run manifest routeModules fetch request matches schedule Loader.initial
      = Some s →
      Loader.objects s = []
      ∧ ∀ c, c ∈ Loader.settled s →
             Loader.observed c = None
             ∧ Loader.outcome c = Throw (JError "Expected a text/x-turbo response"))
  ∧ (∀ (RequestInit : Type) createRequestInit
       (fetch : URL → option RequestInit
                → Completion (Response (SingleFetchResultOf Encoded)))
       request routeId init res,
      createRequestInit request = Normal init →
      fetch (singleFetchUrl (url request)) (Some init) = Normal res →
      ¬ hasTurboContentType res →
      Action.singleFetch createRequestInit fetch request routeId
      = Throw (JError "Expected a text/x-turbo response")).
Proof.
  split.
  - intros RequestInit manifest routeModules fetch request matches schedule s target res
      Hurl Hres Hct Hrun.
    eapply shape_mismatch; [done..|].
    eapply run_shape; [apply Shape_idle | exact Hrun].
  - intros RequestInit createRequestInit fetch request routeId init res Hinit Hres Hct.
    unfold Action.singleFetch. rewrite Hinit. cbn.
    by rewrite (fetchAndDecode_mismatch (D:=SingleFetchResult) fetch _ _ _ Hres Hct).
Qed.

Lemma Sample_document_lacks_marker :
  ¬ hasTurboContentType
      ({| contentType := Some "text/html"; body := [] |}
       : Response (list (string * SingleFetchResultOf Encoded))).
Proof. intros (ct & [= <-] & Hinc). discriminate Hinc. Defined.

Lemma Sample_action_lacks_marker :
  ¬ hasTurboContentType
      ({| contentType := None;
          body := {| error := None; redirectResult := None; data := None |} |}
       : Response (SingleFetchResultOf Encoded)).
Proof. intros (ct & Hct & _). discriminate Hct. Defined.

Lemma protocol_mismatch_fails_every_caller_witness :
  (∃ s c1 c2 c3,
    Loader.run Sample.manifest Sample.routeModules Sample.fetchDocument Sample.request
      Sample.matches Sample.schedule Loader.initial = Some s
    ∧ Loader.settled s = [c1; c2; c3]
    ∧ Loader.outcome c1 = Throw (JError "Expected a text/x-turbo response")
    ∧ Loader.outcome c2 = Throw (JError "Expected a text/x-turbo response")
    ∧ Loader.outcome c3 = Throw (JError "Expected a text/x-turbo response"))
  ∧ Action.singleFetch Sample.createRequestInit Sample.fetchActionDocument Sample.post
      "routes/a"
    = Throw (JError "Expected a text/x-turbo response").
Proof.
  split;
    [|exact (proj2 protocol_mismatch_fails_every_caller unit Sample.createRequestInit
                Sample.fetchActionDocument Sample.post "routes/a" tt _ eq_refl eq_refl
                Sample_action_lacks_marker)].
  destruct (Loader.run Sample.manifest Sample.routeModules Sample.fetchDocument
              Sample.request Sample.matches Sample.schedule Loader.initial)
    as [s|] eqn:Hrun; [|discriminate Hrun].
  destruct (Loader.settled s) as [|c1 [|c2 [|c3 [|c4 rest]]]] eqn:Hsettled;
    try (injection Hrun as <-; discriminate Hsettled).
  destruct (Loader.consolidatedUrl Sample.manifest Sample.routeModules Sample.request
              Sample.matches) as [target|e] eqn:Hurl; [|discriminate Hurl].
  destruct (proj1 protocol_mismatch_fails_every_caller unit Sample.manifest
              Sample.routeModules Sample.fetchDocument Sample.request Sample.matches
              Sample.schedule s target _ Hurl eq_refl Sample_document_lacks_marker Hrun)
    as [_ Hall].
  exists s, c1, c2, c3. split; [reflexivity|]. split; [exact Hsettled|].
  rewrite Hsettled in Hall.
  split; [|split].
  - apply Hall. by left.
  - apply Hall. right. by left.
  - apply Hall. right. right. by left.
Defined.

Lemma shape_read {RequestInit : Type} manifest routeModules
    (fetch : URL → option RequestInit
             → Completion (Response (list (string * SingleFetchResultOf Encoded))))
    request matches s c ref results :
  Shape manifest routeModules fetch request matches s →
  c ∈ Loader.settled s →
  Loader.observed c = Some ref →
  Loader.objects s !! ref = Some results →
  Loader.outcome c = Loader.continue (Loader.caller c) results.
Proof.
  intros Hshape Hin Hobs Hobj.
  destruct Hshape as [|target waiting Hurl Hw|target results' waiting finished Hurl Hdec Hw Hf
                      |target e waiting finished Hurl Hdec Hw Hf|e waiting finished Hurl Hw Hf];
    simpl in *; try by apply elem_of_nil in Hin.
  - destruct (proj1 (Forall_forall _ _) Hf c Hin) as [Hobs' Hout].
    assert (ref = 0) as -> by congruence. simpl in Hobj. congruence.
  - destruct (proj1 (Forall_forall _ _) Hf c Hin) as [Hobs' _]. congruence.
  - destruct (proj1 (Forall_forall _ _) Hf c Hin) as [Hobs' _]. congruence.
Qed.

(** C4.  A loader call whose route has no entry in the resolved results
    object does not always return [null]: the code reads [results[routeId]]
    through the prototype chain.  For a matched route whose identifier is
    [toString], and a results object without that key, the continuation
    finds the inherited function, unwraps it, and throws the generic error;
    a navigation in which that route calls after the response has arrived
    finishes the call with that error. *)
Theorem loader_inherited_key_throws :
  let results : SingleFetchResults := {[ "root" := {| error := None; redirectResult := None;
                                                      data := Some (JStr "root data") |} ]} in
  let thrown : Completion JsValue :=
    Throw (JError ("No action response found for routeId " +:+ dquote +:+ "toString"
                   +:+ dquote)) in
  results !! "toString" = None
  ∧ Loader.continue "toString" results = thrown
  ∧ ∃ s c1 c2,
      Loader.run Sample.manifest Sample.noModules Sample.fetch Sample.request
        Sample.matchesInherited Sample.scheduleInherited Loader.initial = Some s
      ∧ Loader.objects s = [results]
      ∧ Loader.settled s = [c1; c2]
      ∧ Loader.caller c1 = "root" ∧ Loader.outcome c1 = Normal (JStr "root data")
      ∧ Loader.caller c2 = "toString" ∧ Loader.observed c2 = Some 0
      ∧ Loader.outcome c2 = thrown.
Proof.
  split; [reflexivity|]. split; [reflexivity|].
  destruct (Loader.run Sample.manifest Sample.noModules Sample.fetch Sample.request
              Sample.matchesInherited Sample.scheduleInherited Loader.initial)
    as [s|] eqn:Hrun; [|discriminate Hrun].
  destruct (Loader.settled s) as [|c1 [|c2 [|c3 rest]]] eqn:Hsettled;
    try (injection Hrun as <-; discriminate Hsettled).
  exists s, c1, c2. injection Hrun as <-.
  split; [reflexivity|]. split; [reflexivity|]. split; [exact Hsettled|].
  by injection Hsettled as <- <-.
Qed.

(** * The loader continuation on absent routes *)

(** X20.  A loader call whose route has no entry in the resolved results
    object returns [null], provided the route identifier is not the name of
    a property that every object inherits.  The continuation of the call
    computes [null]; a parked call in that situation can always resume, and
    finishes with [null]; and in every state a navigation reaches, a
    finished call that read a results object without an entry for its route
    has returned [null]. *)
Theorem absent_loader_result_is_null :
  (∀ (routeId : string) (results : SingleFetchResults),
      results !! routeId = None → isObjectPrototypeKey routeId = false →
      Loader.continue routeId results = Normal JNull)
  ∧ (∀ (RequestInit : Type) manifest routeModules
       (fetch : URL → option RequestInit
                → Completion (Response (list (string * SingleFetchResultOf Encoded))))
       request matches s k routeId p ref results,
      Loader.awaiting s !! k = Some (routeId, p) →
      Loader.promises s !! p = Some (Loader.Fulfilled ref) →
      Loader.objects s !! ref = Some results →
      results !! routeId = None →
      isObjectPrototypeKey routeId = false →
      Loader.step manifest routeModules fetch request matches s (Loader.Resume k)
      = Some (Loader.finish k {| Loader.caller := routeId;
                                 Loader.observed := Some ref;
                                 Loader.outcome := Normal JNull |} s))
  ∧ (∀ (RequestInit : Type) manifest routeModules
       (fetch : URL → option RequestInit
                → Completion (Response (list (string * SingleFetchResultOf Encoded))))
       request matches schedule s c ref results,
      Loader.run manifest routeModules fetch request matches schedule Loader.initial
      = Some s →
      c ∈ Loader.settled s →
      Loader.observed c = Some ref →
      Loader.objects s !! ref = Some results →
      results !! Loader.caller c = None →
      isObjectPrototypeKey (Loader.caller c) = false →
      Loader.outcome c = Normal JNull).
Proof.
  assert (∀ (routeId : string) (results : SingleFetchResults),
             results !! routeId = None → isObjectPrototypeKey routeId = false →
             Loader.continue routeId results = Normal JNull)
    as Hcontinue.
  { intros routeId results Hnone Hown. unfold Loader.continue. by rewrite Hnone, Hown. }
  split; [exact Hcontinue|]. split.
  - intros RequestInit manifest routeModules fetch request matches s k routeId p ref results
      Hk Hp Hobj Hnone Hown.
    simpl. unfold Loader.resume. rewrite Hk, Hp, Hobj. simpl.
    by rewrite (Hcontinue _ _ Hnone Hown).
  - intros RequestInit manifest routeModules fetch request matches schedule s c ref results
      Hrun Hin Hobs Hobj Hnone Hown.
    rewrite <- (Hcontinue _ _ Hnone Hown).
    eapply shape_read; [|done..]. eapply run_shape; [apply Shape_idle | exact Hrun].
Qed.

Lemma absent_loader_result_is_null_witness :
  ∃ s c1 c2 c3,
    Loader.run Sample.manifest Sample.routeModules Sample.fetch Sample.request
      Sample.matches Sample.schedule Loader.initial = Some s
    ∧ Loader.settled s = [c1; c2; c3]
    ∧ Loader.caller c1 = "routes/a"
    ∧ isObjectPrototypeKey (Loader.caller c1) = false
    ∧ Loader.outcome c1 = Normal JNull
    ∧ Loader.outcome c2 = Normal (JStr "root data").
Proof.
  destruct (Loader.run Sample.manifest Sample.routeModules Sample.fetch
              Sample.request Sample.matches Sample.schedule Loader.initial)
    as [s|] eqn:Hrun; [|discriminate Hrun].
  destruct (Loader.settled s) as [|c1 [|c2 [|c3 [|c4 rest]]]] eqn:Hsettled;
    try (injection Hrun as <-; discriminate Hsettled).
  destruct (Loader.objects s !! 0) as [results|] eqn:Hobj;
    [|injection Hrun as <-; discriminate Hobj].
  assert (c1 ∈ Loader.settled s) as Hin by (rewrite Hsettled; by left).
  assert (Loader.caller c1 = "routes/a" ∧ Loader.observed c1 = Some 0
          ∧ Loader.outcome c2 = Normal (JStr "root data")) as (Hcaller & Hobs & Hroot).
  { injection Hrun as <-. by injection Hsettled as <- <- <-. }
  assert (results !! Loader.caller c1 = None) as Hnone.
  { rewrite Hcaller. injection Hrun as <-. by injection Hobj as <-. }
  assert (isObjectPrototypeKey (Loader.caller c1) = false) as Hown
    by (by rewrite Hcaller).
  pose proof (proj2 (proj2 absent_loader_result_is_null) unit Sample.manifest
                Sample.routeModules Sample.fetch Sample.request Sample.matches
                Sample.schedule s c1 0 results Hrun Hin Hobs Hobj Hnone Hown) as Hnull.
  exists s, c1, c2, c3. by repeat split.
Defined.

Lemma loader_issues_one_request_witness :
  ∃ s target,
    Loader.run Sample.manifest Sample.routeModules Sample.fetch Sample.request
      Sample.matches Sample.schedule Loader.initial = Some s
    ∧ Loader.network s = [target]
    ∧ pathname target = "/a/b.data"
    ∧ length (Loader.settled s) = 3.
Proof.
  destruct (Loader.run Sample.manifest Sample.routeModules Sample.fetch
              Sample.request Sample.matches Sample.schedule Loader.initial)
    as [s|] eqn:Hrun; [|discriminate Hrun].
  destruct (loader_issues_one_request Sample.manifest Sample.routeModules Sample.fetch
              Sample.request Sample.matches Sample.schedule s Sample_covered Hrun)
    as (target & Hurl & Hnet & _ & Hcalls & _).
  exists s, target. split; [reflexivity|]. split; [exact Hnet|].
  split; [by injection Hurl as <-|].
  injection Hrun as <-. reflexivity.
Defined.

(** * Further properties of the URL helpers *)

(** X1.  [stripIndexParam] is idempotent: normalizing an already normalized
    URL changes nothing. *)
Theorem stripIndexParam_idempotent (u : URL) :
  stripIndexParam (stripIndexParam u) = stripIndexParam u.
Proof.
  assert (∀ v w : URL, origin v = origin w → pathname v = pathname w →
                       searchParams v = searchParams w → hash v = hash w → v = w)
    as Hext.
  { intros [] []. simpl. by intros -> -> -> ->. }
  apply Hext; try done.
  rewrite (stripIndexParam_searchParams (stripIndexParam u)).
  rewrite stripIndexParam_others, stripIndexParam_getAll_index.
  rewrite list_filter_filter_l by done.
  symmetry. apply stripIndexParam_searchParams.
Qed.

(** X2.  The query that [stripIndexParam] returns is laid out as follows: the
    parameters other than [index], in their order, and after all of them the
    non-empty [index] values in their order.  So an [index] entry that stood
    before another parameter moves behind it, and a URL without any [index]
    parameter keeps its list of parameters, names and values in order.  (The
    query text is written anew from that list, so its escapes may be spelled
    differently.) *)
Theorem stripIndexParam_layout (u : URL) :
  searchParams (stripIndexParam u)
  = URLSearchParams.delete "index" (searchParams u)
    ++ ((fun v => ("index", v)) <$>
          filter (fun v => v ≠ EmptyString)
                 (URLSearchParams.getAll "index" (searchParams u)))
  ∧ (URLSearchParams.getAll "index" (searchParams u) = [] →
     searchParams (stripIndexParam u) = searchParams u).
Proof.
  split; [apply stripIndexParam_searchParams|].
  intros Hnone.
  assert (URLSearchParams.delete "index" (searchParams u) = searchParams u) as Hsame.
  { clear -Hnone. unfold URLSearchParams.getAll, URLSearchParams.delete in *.
    induction (searchParams u) as [|p ps IH]; [done|].
    rewrite filter_cons in Hnone |- *.
    destruct (decide (p.1 = "index")) as [He|Hne]; [done|].
    destruct (decide (p.1 ≠ "index")); [|done]. f_equal. by apply IH. }
  rewrite stripIndexParam_searchParams, Hnone, Hsame. simpl. apply app_nil_r.
Qed.

Lemma stripIndexParam_layout_witness :
  searchParams
    (stripIndexParam
       (mkURL "https://remix.run" "/a" [("_routes", "routes/a"); ("page", "2")]
              EmptyString))
  = [("_routes", "routes/a"); ("page", "2")].
Proof.
  exact (proj2 (stripIndexParam_layout
                  (mkURL "https://remix.run" "/a" [("_routes", "routes/a"); ("page", "2")]
                         EmptyString)) eq_refl).
Defined.

Lemma append_cancel_r (s1 s2 t : string) : s1 +:+ t = s2 +:+ t → s1 = s2.
Proof.
  revert s2. induction s1 as [|c s1 IH]; intros [|d s2] Heq; [done|..].
  - apply (f_equal String.length) in Heq.
    rewrite !length_append in Heq. simpl in Heq. lia.
  - apply (f_equal String.length) in Heq.
    rewrite !length_append in Heq. simpl in Heq. lia.
  - rewrite !append_cons in Heq. injection Heq as -> Heq. f_equal. by apply IH.
Qed.

Lemma absolute_path_data (p : string) :
  String.prefix "/" p = true →
  pathname (singleFetchUrl (mkURL EmptyString p [] EmptyString))
  = (if String.eqb p "/" then "/_root" else p) +:+ ".data".
Proof.
  intros Habs. unfold singleFetchUrl. simpl.
  destruct (String.eqb_spec p "/") as [->|Hne]; [done|].
  by rewrite (prefix_append _ _ ".data" Habs).
Qed.

(** X3.  [singleFetchUrl] tells request URLs apart except for one pair of
    paths: the root path and the path [/_root] are both sent to
    [/_root.data].  Two URLs with absolute paths have the same data URL
    exactly when they agree on origin, query and fragment and their paths are
    equal or are [/] and [/_root]. *)
Theorem singleFetchUrl_collisions (u1 u2 : URL) :
  String.prefix "/" (pathname u1) = true →
  String.prefix "/" (pathname u2) = true →
  singleFetchUrl u1 = singleFetchUrl u2
  ↔ origin u1 = origin u2 ∧ searchParams u1 = searchParams u2 ∧ hash u1 = hash u2
    ∧ (pathname u1 = pathname u2
       ∨ (pathname u1 = "/" ∧ pathname u2 = "/_root")
       ∨ (pathname u1 = "/_root" ∧ pathname u2 = "/")).
Proof.
  intros Habs1 Habs2.
  pose proof (absolute_path_data _ Habs1) as Hp1.
  pose proof (absolute_path_data _ Habs2) as Hp2.
  destruct u1 as [o1 p1 q1 h1], u2 as [o2 p2 q2 h2].
  unfold singleFetchUrl, setPathname in *. simpl in *. split.
  - intros [= -> Hpath -> ->]. repeat split.
    rewrite Hp1, Hp2 in Hpath. apply append_cancel_r in Hpath.
    destruct (String.eqb_spec p1 "/") as [->|Hn1], (String.eqb_spec p2 "/") as [->|Hn2];
      auto.
  - intros (-> & -> & -> & Hpath). f_equal. rewrite Hp1, Hp2.
    destruct Hpath as [->|[[-> ->]|[-> ->]]]; done.
Qed.

Lemma singleFetchUrl_collisions_witness :
  singleFetchUrl (mkURL "https://remix.run" "/" [] EmptyString)
  = singleFetchUrl (mkURL "https://remix.run" "/_root" [] EmptyString).
Proof.
  apply (proj2 (singleFetchUrl_collisions
                  (mkURL "https://remix.run" "/" [] EmptyString)
                  (mkURL "https://remix.run" "/_root" [] EmptyString)
                  eq_refl eq_refl)).
  repeat split. right. left. by split.
Defined.

(** X4.  The path of a data URL is the path of a document followed by
    [.data]; in particular a data URL is never the URL it was computed from,
    and never has the root path. *)
Theorem singleFetchUrl_never_document (u : URL) :
  String.prefix "/" (pathname u) = true →
  (∃ stem, stem ≠ EmptyString ∧ pathname (singleFetchUrl u) = stem +:+ ".data")
  ∧ singleFetchUrl u ≠ u
  ∧ pathname (singleFetchUrl u) ≠ "/".
Proof.
  intros Habs.
  assert (pathname (singleFetchUrl u)
          = (if String.eqb (pathname u) "/" then "/_root" else pathname u) +:+ ".data")
    as Hpath.
  { rewrite <- (absolute_path_data _ Habs). by destruct u. }
  assert (String.length (pathname (singleFetchUrl u)) ≠ String.length (pathname u)
          ∧ String.length (pathname (singleFetchUrl u)) ≠ 1) as [Hlen Hone].
  { rewrite Hpath, length_append.
    destruct (String.eqb_spec (pathname u) "/") as [->|]; simpl; lia. }
  split; [|split].
  - eexists. split; [|exact Hpath].
    destruct (String.eqb_spec (pathname u) "/"); [done|].
    intros Hempty. by rewrite Hempty in Habs.
  - intros Heq. by rewrite Heq in Hlen.
  - intros Heq. by rewrite Heq in Hone.
Qed.

Lemma singleFetchUrl_never_document_witness :
  singleFetchUrl (mkURL "https://remix.run" "/a/b" [("q", "1")] EmptyString)
  ≠ mkURL "https://remix.run" "/a/b" [("q", "1")] EmptyString.
Proof.
  exact (proj1 (proj2 (singleFetchUrl_never_document
                         (mkURL "https://remix.run" "/a/b" [("q", "1")] EmptyString)
                         eq_refl))).
Defined.

(** * Further properties of [addRevalidationParam] *)

Lemma filterM_routeHasLoader_missing manifest (arr : list string) :
  (∃ id, id ∈ arr ∧ routes manifest !! id = None ∧ isObjectPrototypeKey id = false) →
  filterM (routeHasLoader manifest) arr = Throw JTypeError.
Proof.
  induction arr as [|id0 arr IH]; intros (id & Hin & Hnone & Hown).
  - by apply elem_of_nil in Hin.
  - cbn [filterM].
    assert (routeHasLoader manifest id0
            = match routes manifest !! id0 with
              | Some r => Normal (hasLoader r)
              | None => if isObjectPrototypeKey id0 then Normal false else Throw JTypeError
              end) as -> by reflexivity.
    apply elem_of_cons in Hin as [->|Hin]; [by rewrite Hnone, Hown|].
    assert (filterM (routeHasLoader manifest) arr = Throw JTypeError) as Hrest
      by (apply IH; eauto).
    destruct (routes manifest !! id0) as [r|];
      [|destruct (isObjectPrototypeKey id0); [|reflexivity]];
      cbn; by rewrite Hrest.
Qed.

Lemma genRouteIds_missing manifest (arr : list string) :
  (∃ id, id ∈ arr ∧ routes manifest !! id = None ∧ isObjectPrototypeKey id = false) →
  genRouteIds manifest arr = Throw JTypeError.
Proof.
  intros Hmissing. unfold genRouteIds.
  by rewrite (filterM_routeHasLoader_missing manifest _ Hmissing).
Qed.

Lemma serverStepIds_cons manifest m matches :
  serverStepIds manifest (m :: matches)
  = (if hasServerStep manifest (Route.id (route m))
     then [Route.id (route m)] else [])
    ++ serverStepIds manifest matches.
Proof.
  unfold serverStepIds, routeIds. rewrite fmap_cons, filter_cons.
  destruct (decide _) as [->|Hn]; [done|]. by apply not_true_is_false in Hn as ->.
Qed.

(** X5.  When no matched route declares [shouldRevalidate], the function
    returns its URL as it is and reads nothing from the manifest: it succeeds
    even for routes the manifest does not know. *)
Theorem addRevalidationParam_without_hook manifest routeModules matches (u : URL) :
  (∀ m, m ∈ matches → ¬ DeclaresHook routeModules m) →
  addRevalidationParam manifest routeModules matches u = Normal u.
Proof.
  intros Hnone. apply addRevalidationParam_no_hook.
  destruct (existsb _ matches) eqn:Hsome; [|done].
  apply some_declares_spec in Hsome as (m & Hin & Hm). by destruct (Hnone m Hin).
Qed.

Lemma addRevalidationParam_without_hook_witness :
  addRevalidationParam {| routes := ∅ |} Sample.noModules Sample.matches
    (url Sample.request)
  = Normal (url Sample.request).
Proof.
  apply addRevalidationParam_without_hook.
  intros m _ (module & Hlookup & _). discriminate Hlookup.
Defined.

(** X6.  When some matched route declares [shouldRevalidate] and some matched
    route has no entry in the manifest, under an identifier that is not the
    name of a property every object inherits, reading [hasLoader] of the
    missing entry makes the function throw a [TypeError]: no URL is
    produced. *)
Theorem addRevalidationParam_missing_route manifest routeModules matches (u : URL) :
  (∃ m, m ∈ matches ∧ DeclaresHook routeModules m) →
  (∃ id, id ∈ routeIds matches ∧ routes manifest !! id = None
         ∧ isObjectPrototypeKey id = false) →
  addRevalidationParam manifest routeModules matches u = Throw JTypeError.
Proof.
  intros Hhook Hmissing. unfold addRevalidationParam.
  rewrite (proj2 (some_declares_spec routeModules matches) Hhook).
  fold (routeIds matches). by rewrite (genRouteIds_missing manifest _ Hmissing).
Qed.

Lemma addRevalidationParam_missing_route_witness :
  addRevalidationParam {| routes := ∅ |} Sample.routeModules Sample.matches
    (url Sample.request)
  = Throw JTypeError.
Proof.
  apply addRevalidationParam_missing_route.
  - exists {| route := {| Route.id := "routes/a" |}; shouldLoad := false |}.
    split; [right; left|]. eexists. split; [reflexivity | by eexists].
  - exists "root". split; [left | split; reflexivity].
Defined.

(** X7.  When every matched route that declares a loader is marked
    [shouldLoad], the function returns its URL as it is, whatever hooks are
    declared: routes without a loader never cause the parameter to be set. *)
Theorem addRevalidationParam_all_loading manifest routeModules matches (u : URL) :
  manifestCovers manifest matches →
  (∀ m, m ∈ matches → hasServerStep manifest (Route.id (route m)) = true →
        shouldLoad m = true) →
  addRevalidationParam manifest routeModules matches u = Normal u.
Proof.
  intros Hcov Hall.
  assert (serverStepIds manifest (loading matches) = serverStepIds manifest matches)
    as Hsame.
  { clear Hcov. induction matches as [|m matches IH]; [done|].
    unfold loading. rewrite filter_cons. fold (loading matches).
    rewrite (serverStepIds_cons manifest m matches).
    destruct (decide (shouldLoad m = true)) as [Hload|Hskip].
    - rewrite serverStepIds_cons, IH; [done|].
      intros m' Hin Hstep. apply Hall; [by right | done].
    - rewrite IH by (intros m' Hin Hstep; apply Hall; [by right | done]).
      destruct (hasServerStep manifest (Route.id (route m))) eqn:Hstep; [|done].
      destruct Hskip. apply Hall; [by left | done]. }
  rewrite (addRevalidationParam_covered _ _ _ _ Hcov), Hsame, String.eqb_refl.
  by rewrite andb_false_r.
Qed.

Lemma addRevalidationParam_all_loading_witness :
  addRevalidationParam Sample.manifest Sample.routeModules
    [ {| route := {| Route.id := "root" |}; shouldLoad := true |};
      {| route := {| Route.id := "routes/a/b" |}; shouldLoad := false |} ]
    (url Sample.request)
  = Normal (url Sample.request).
Proof.
  apply addRevalidationParam_all_loading.
  - intros id Hid. unfold routeIds in Hid. simpl in Hid.
    repeat (apply elem_of_cons in Hid as [->|Hid]); [by eexists..|].
    by apply elem_of_nil in Hid.
  - intros m Hin Hstep.
    repeat (apply elem_of_cons in Hin as [->|Hin]); [reflexivity|discriminate Hstep|].
    by apply elem_of_nil in Hin.
Defined.

(** X8.  The consolidated URL as a whole: when the manifest covers the
    matches it exists, has the origin and fragment of the navigation URL and
    the data path of its path; its [index] values are the non-empty [index]
    values of the navigation URL, and every parameter other than [index] and
    [_routes] has the values it had, in order. *)
Theorem consolidatedUrl_composition manifest routeModules request matches :
  manifestCovers manifest matches →
  ∃ target,
    Loader.consolidatedUrl manifest routeModules request matches = Normal target
    ∧ origin target = origin (url request)
    ∧ pathname target = pathname (singleFetchUrl (url request))
    ∧ hash target = hash (url request)
    ∧ URLSearchParams.getAll "index" (searchParams target)
      = filter (fun v => v ≠ EmptyString)
               (URLSearchParams.getAll "index" (searchParams (url request)))
    ∧ (∀ name, name ≠ "index" → name ≠ "_routes" →
         URLSearchParams.getAll name (searchParams target)
         = URLSearchParams.getAll name (searchParams (url request))).
Proof.
  intros Hcov. unfold Loader.consolidatedUrl.
  rewrite (addRevalidationParam_covered _ _ _ _ Hcov). cbn.
  eexists. split; [done|].
  destruct (_ && _); simpl; repeat split.
  - rewrite getAll_set_ne by done. apply stripIndexParam_getAll_index.
  - intros name Hi Hr. rewrite getAll_set_ne by done.
    by apply stripIndexParam_getAll_other.
  - apply stripIndexParam_getAll_index.
  - intros name Hi Hr. by apply stripIndexParam_getAll_other.
Qed.

Lemma consolidatedUrl_composition_witness :
  ∃ target,
    Loader.consolidatedUrl Sample.manifest Sample.routeModules Sample.request
      Sample.matches = Normal target
    ∧ pathname target = "/a/b.data"
    ∧ URLSearchParams.getAll "index" (searchParams target) = []
    ∧ URLSearchParams.getAll "q" (searchParams target) = ["1"].
Proof.
  destruct (consolidatedUrl_composition Sample.manifest Sample.routeModules
              Sample.request Sample.matches Sample_covered)
    as (target & Heq & _ & Hpath & _ & Hindex & Hother).
  exists target. split; [exact Heq|]. split; [exact Hpath|]. split; [exact Hindex|].
  apply (Hother "q"); discriminate.
Defined.

(** * Further properties of unwrapping and decoding *)

(** X9.  [unwrapSingleFetchResult] returns normally exactly for a result
    without the [error] tag that either has the [redirect] tag, with a
    location and a status the redirect response can be built from (the
    location, once trimmed, is a header value, and the status, taken as an
    unsigned 16 bit integer, lies between 200 and 599), or has no [redirect]
    tag and has the [data] tag; a result with only the [data] tag unwraps to
    that data, unchanged. *)
Theorem unwrap_returns_iff (result : SingleFetchResult) (routeId : string) :
  ((∃ v, unwrapSingleFetchResult result routeId = Normal v)
   ↔ error result = None
     ∧ ((∃ r, redirectResult result = Some r
              ∧ Router.isHeaderValue (Router.normalizeHeaderValue (redirect r)) = true
              ∧ (200 ≤ status r mod 65536 ≤ 599)%Z)
        ∨ (redirectResult result = None ∧ is_Some (data result))))
  ∧ (∀ d, error result = None → redirectResult result = None → data result = Some d →
          unwrapSingleFetchResult result routeId = Normal d).
Proof.
  unfold unwrapSingleFetchResult.
  destruct (error result) as [e|].
  { split; [split|].
    - intros [v Hv]. discriminate Hv.
    - intros [Hn _]. discriminate Hn.
    - intros d Hn. discriminate Hn. }
  destruct (redirectResult result) as [r|].
  { split; [split|].
    - intros [v Hv]. split; [done|]. left. exists r. split; [done|].
      unfold Router.redirect in Hv.
      destruct (Router.isHeaderValue _); [|discriminate Hv]. split; [done|].
      cbn zeta in Hv.
      destruct (Z.leb_spec 200 (status r mod 65536));
        destruct (Z.leb_spec (status r mod 65536) 599);
        try discriminate Hv. lia.
    - intros [_ [(r' & [= <-] & Hvalue & Hstatus)|[Hr _]]]; [|discriminate Hr].
      unfold Router.redirect. rewrite Hvalue. cbn zeta.
      destruct (Z.leb_spec 200 (status r mod 65536)); [|lia].
      destruct (Z.leb_spec (status r mod 65536) 599); [|lia].
      by eexists.
    - intros d _ Hr. discriminate Hr. }
  destruct (data result) as [d|].
  { split; [split|].
    - intros _. split; [done|]. right. split; [done | by eexists].
    - intros _. by eexists.
    - by intros d' _ _ [= ->]. }
  split; [split|].
  - intros [v Hv]. discriminate Hv.
  - intros [_ [(r & Hr & _)|[_ [? Hs]]]]; [discriminate Hr | discriminate Hs].
  - intros d _ _ Hd. discriminate Hd.
Qed.

Lemma unwrap_returns_iff_witness :
  unwrapSingleFetchResult
    {| error := None; redirectResult := None; data := Some (JStr "root data") |} "root"
  = Normal (JStr "root data").
Proof.
  exact (proj2 (unwrap_returns_iff
                  {| error := None; redirectResult := None;
                     data := Some (JStr "root data") |} "root")
               (JStr "root data") eq_refl eq_refl eq_refl).
Defined.

(** X10.  The route identifier only enters the outcome of
    [unwrapSingleFetchResult] through the message for a result without any
    tag: two identifiers give the same outcome exactly when the result
    carries a tag or the identifiers are equal. *)
Theorem unwrap_routeId_only_in_message (result : SingleFetchResult) (id1 id2 : string) :
  unwrapSingleFetchResult result id1 = unwrapSingleFetchResult result id2
  ↔ (is_Some (error result) ∨ is_Some (redirectResult result) ∨ is_Some (data result))
    ∨ id1 = id2.
Proof.
  unfold unwrapSingleFetchResult.
  destruct (error result) as [e|]; [split; [intros _; left; left; by eexists | done]|].
  destruct (redirectResult result) as [r|];
    [split; [intros _; left; right; left; by eexists | done]|].
  destruct (data result) as [d|];
    [split; [intros _; left; right; right; by eexists | done]|].
  split.
  - intros Heq. right.
    assert ("No action response found for routeId " +:+ dquote +:+ id1 +:+ dquote
            = "No action response found for routeId " +:+ dquote +:+ id2 +:+ dquote)
      as Hmsg by congruence.
    apply (inj (String.app _)) in Hmsg. apply (inj (String.app _)) in Hmsg.
    by apply append_cancel_r in Hmsg.
  - intros [[[? [=]]|[[? [=]]|[? [=]]]]| ->]. done.
Qed.

(** X11.  [fetchAndDecode] with any decoder: a network failure is thrown on
    as it is; a response whose [Content-Type] contains [text/x-turbo]
    anywhere (for instance followed by a charset) is accepted, and the
    outcome is then exactly that of decoding its body with the one
    registered plugin. *)
Theorem fetchAndDecode_outcomes {RequestInit B D : Type} `{!Decode B D}
    (fetch : URL → option RequestInit → Completion (Response B)) url init :
  (∀ e, fetch url init = Throw e → fetchAndDecode fetch url init = Throw e)
  ∧ (∀ res before after,
        fetch url init = Normal res →
        contentType res = Some (before +:+ "text/x-turbo" +:+ after) →
        fetchAndDecode fetch url init = decode (body res) [errorResponsePlugin]).
Proof.
  split.
  - intros e He. unfold fetchAndDecode. by rewrite He.
  - intros res before after Hres Hct. unfold fetchAndDecode. rewrite Hres. cbn.
    rewrite Hct. cbn. rewrite includes_append. cbn.
    by destruct (decode (body res) [errorResponsePlugin]).
Qed.

Lemma fetchAndDecode_outcomes_witness :
  fetchAndDecode Sample.fetch (url Sample.request) None
  = Normal ({[ "root" := {| error := None; redirectResult := None;
                            data := Some (JStr "root data") |} ]} : SingleFetchResults).
Proof.
  rewrite (proj2 (fetchAndDecode_outcomes Sample.fetch (url Sample.request) None)
             _ EmptyString "; charset=utf-8" eq_refl eq_refl).
  reflexivity.
Defined.

(** X12.  An action call from request to outcome.  The call asks the
    network once, for the data URL of the request URL with the query as it
    stands, and with the init made from the request.  When the answer is a
    turbo stream whose result carries only plain data, the call returns that
    data; when the result carries an error the stream tags as
    [ErrorResponse], the call throws the [ErrorResponseImpl] rebuilt from the
    encoded fields, and not the encoded record. *)
Theorem action_end_to_end {RequestInit : Type}
    (createRequestInit : Request → Completion RequestInit)
    (fetch : URL → option RequestInit → Completion (Response (SingleFetchResultOf Encoded)))
    (request : Request) (routeId : string) (init : RequestInit)
    (res : Response (SingleFetchResultOf Encoded)) :
  createRequestInit request = Normal init →
  fetch (mkURL (origin (url request)) (pathname (singleFetchUrl (url request)))
               (searchParams (url request)) (hash (url request)))
        (Some init) = Normal res →
  hasTurboContentType res →
  (∀ v, body res = {| error := None; redirectResult := None; data := Some (EValue v) |} →
        Action.singleFetch createRequestInit fetch request routeId = Normal v)
  ∧ (∀ payload redirected,
        body res = {| error := Some (ECustom "ErrorResponse" payload);
                      redirectResult := redirected; data := None |} →
        Action.singleFetch createRequestInit fetch request routeId
        = Throw (JErrorResponse (lookupProp "status" payload)
                                (lookupProp "statusText" payload)
                                (lookupProp "data" payload)
                                (strictlyTrue (lookupProp "internal" payload)))).
Proof.
  intros Hinit Hres (ct & Hct & Hinc).
  assert (∀ result : SingleFetchResult,
             decode (body res) [errorResponsePlugin] = Normal result →
             Action.singleFetch createRequestInit fetch request routeId
             = unwrapSingleFetchResult result routeId) as Hcall.
  { intros result Hdec. unfold Action.singleFetch. rewrite Hinit. cbn.
    unfold fetchAndDecode.
    assert (singleFetchUrl (url request)
            = mkURL (origin (url request)) (pathname (singleFetchUrl (url request)))
                    (searchParams (url request)) (hash (url request))) as ->
      by (by destruct (url request)).
    rewrite Hres. cbn. rewrite Hct. cbn. rewrite Hinc. cbn.
    by rewrite Hdec. }
  split.
  - intros v Hbody. rewrite (Hcall {| error := None; redirectResult := None;
                                      data := Some v |}); [done|].
    by rewrite Hbody.
  - intros payload redirected Hbody.
    rewrite (Hcall {| error := Some (JErrorResponse (lookupProp "status" payload)
                                       (lookupProp "statusText" payload)
                                       (lookupProp "data" payload)
                                       (strictlyTrue (lookupProp "internal" payload)));
                      redirectResult := redirected; data := None |}); [done|].
    by rewrite Hbody.
Qed.

Lemma Sample_action_marker :
  hasTurboContentType
    ({| contentType := Some "text/x-turbo";
        body := {| error := None; redirectResult := None;
                   data := Some (EValue (JStr "saved")) |} |}
     : Response (SingleFetchResultOf Encoded)).
Proof. by eexists. Defined.

Lemma action_end_to_end_witness :
  Action.singleFetch Sample.createRequestInit
    (fun _ _ => Normal {| contentType := Some "text/x-turbo";
                          body := {| error := None; redirectResult := None;
                                     data := Some (EValue (JStr "saved")) |} |})
    Sample.post "routes/a"
  = Normal (JStr "saved").
Proof.
  exact (proj1 (action_end_to_end Sample.createRequestInit
                  (fun _ _ => Normal {| contentType := Some "text/x-turbo";
                                        body := {| error := None; redirectResult := None;
                                                   data := Some (EValue (JStr "saved")) |} |})
                  Sample.post "routes/a" tt _ eq_refl eq_refl Sample_action_marker)
               (JStr "saved") eq_refl).
Defined.

(** * Further properties of the loader's shared promise *)

Lemma arrivals_cons (ev : Loader.Event) (schedule : list Loader.Event) :
  arrivals (ev :: schedule) = arrivals [ev] + arrivals schedule.
Proof.
  unfold arrivals. rewrite !filter_cons, filter_nil.
  by destruct (decide (isSettle ev = true)).
Qed.

Section LoaderSchedules.
Context {RequestInit : Type}.
Variable manifest : AssetsManifest.
Variable routeModules : gmap string RouteModule.
Variable fetch :
  URL → option RequestInit
  → Completion (Response (list (string * SingleFetchResultOf Encoded))).
Variable request : Request.
Variable matches : list DataStrategyMatch.

Local Abbreviation step := (Loader.step manifest routeModules fetch request matches).
Local Abbreviation run := (Loader.run manifest routeModules fetch request matches).
Local Abbreviation consolidated :=
  (Loader.consolidatedUrl manifest routeModules request matches).
Local Abbreviation shape := (Shape manifest routeModules fetch request matches).

Lemma run_app schedule rest s :
  run (schedule ++ rest) s = run schedule s ≫= run rest.
Proof.
  revert s. induction schedule as [|ev schedule IH]; intros s; simpl; [done|].
  destruct (step s ev) as [s1|]; simpl; [apply IH | done].
Qed.

(** The promise exists and is no longer pending. *)
Definition resolved (s : Loader.State) : Prop :=
  ∃ st, Loader.promises s = [st] ∧ ∀ target, st ≠ Loader.Pending target.

(** No promise yet, or the request is still in flight. *)
Definition unresolved (s : Loader.State) : Prop :=
  Loader.promises s = [] ∨ ∃ target, Loader.promises s = [Loader.Pending target].

Lemma shape_resolved_or_not s : shape s → resolved s ∨ unresolved s.
Proof.
  destruct 1; simpl; [right; by left | right; right; by eexists | left..];
    eexists; by split.
Qed.

Lemma resume_first s call rest :
  shape s → resolved s → Loader.awaiting s = call :: rest →
  ∃ s1, step s (Loader.Resume 0) = Some s1
        ∧ shape s1 ∧ resolved s1
        ∧ Loader.awaiting s1 = rest
        ∧ length (Loader.settled s1) = S (length (Loader.settled s)).
Proof.
  intros Hshape (st & Hst & Hnot) Haw.
  assert (∃ s1, step s (Loader.Resume 0) = Some s1
                ∧ Loader.promises s1 = Loader.promises s
                ∧ Loader.awaiting s1 = rest
                ∧ length (Loader.settled s1) = S (length (Loader.settled s)))
    as (s1 & Hstep & Hprom & Hrest & Hlen).
  { destruct Hshape as [|target waiting Hurl Hw|target results waiting finished Hurl Hdec Hw Hf
                        |target e waiting finished Hurl Hdec Hw Hf|e waiting finished Hurl Hw Hf];
      simpl in *; try discriminate Haw.
    - injection Hst as <-. by destruct (Hnot target).
    - subst waiting. apply Forall_cons in Hw as [Hcall _]. destruct call as [routeId p].
      unfold awaitsFirst in Hcall. simpl in Hcall. subst p.
      eexists. unfold Loader.resume. simpl. split; [done|]. simpl.
      rewrite length_app. simpl. repeat split. lia.
    - subst waiting. apply Forall_cons in Hw as [Hcall _]. destruct call as [routeId p].
      unfold awaitsFirst in Hcall. simpl in Hcall. subst p.
      eexists. unfold Loader.resume. simpl. split; [done|]. simpl.
      rewrite length_app. simpl. repeat split. lia.
    - subst waiting. apply Forall_cons in Hw as [Hcall _]. destruct call as [routeId p].
      unfold awaitsFirst in Hcall. simpl in Hcall. subst p.
      eexists. unfold Loader.resume. simpl. split; [done|]. simpl.
      rewrite length_app. simpl. repeat split. lia. }
  exists s1. split; [done|]. split; [by eapply step_shape|].
  split; [|done]. exists st. by rewrite Hprom.
Qed.

Lemma drain s :
  shape s → resolved s →
  ∃ s', run (replicate (length (Loader.awaiting s)) (Loader.Resume 0)) s = Some s'
        ∧ Loader.awaiting s' = []
        ∧ length (Loader.settled s')
          = length (Loader.settled s) + length (Loader.awaiting s).
Proof.
  remember (length (Loader.awaiting s)) as n eqn:Hn. revert s Hn.
  induction n as [|n IH]; intros s Hn Hshape Hres.
  - exists s. simpl. split; [done|]. split; [|lia].
    by destruct (Loader.awaiting s).
  - destruct (Loader.awaiting s) as [|call rest] eqn:Haw; [done|].
    destruct (resume_first s call rest Hshape Hres Haw)
      as (s1 & Hstep & Hshape1 & Hres1 & Hrest & Hlen).
    destruct (IH s1) as (s' & Hrun & Hempty & Hcount); [|done..|].
    { rewrite Hrest. simpl in Hn. lia. }
    exists s'. cbn [replicate Loader.run]. rewrite Hstep. simpl.
    split; [done|]. split; [done|]. lia.
Qed.

Lemma settle_pending s target :
  shape s → Loader.promises s = [Loader.Pending target] →
  ∃ s1, step s (Loader.Settle 0) = Some s1
        ∧ shape s1 ∧ resolved s1
        ∧ Loader.awaiting s1 = Loader.awaiting s
        ∧ Loader.settled s1 = Loader.settled s.
Proof.
  intros Hshape Hpending.
  assert (∃ s1, step s (Loader.Settle 0) = Some s1
                ∧ (∃ st, Loader.promises s1 = [st] ∧ ∀ t, st ≠ Loader.Pending t)
                ∧ Loader.awaiting s1 = Loader.awaiting s
                ∧ Loader.settled s1 = Loader.settled s) as (s1 & Hstep & Hres & Haw & Hse).
  { simpl. unfold Loader.settle. rewrite Hpending. simpl.
    destruct (fetchAndDecode fetch target None); eexists; (split; [done|]); simpl;
      (split; [|done]); eexists; by split. }
  exists s1. split; [done|]. split; [by eapply step_shape | done].
Qed.

(** X16.  No call is left hanging: whatever has happened so far, at most one
    arrival of the response followed by resumptions finishes every call that
    was made. *)
Theorem loader_calls_can_finish schedule s :
  run schedule Loader.initial = Some s →
  ∃ rest s',
    run (schedule ++ rest) Loader.initial = Some s'
    ∧ arrivals rest ≤ 1
    ∧ Loader.awaiting s' = []
    ∧ length (Loader.settled s') = invocations schedule.
Proof.
  intros Hrun.
  pose proof (run_shape _ _ _ _ _ _ _ _ (Shape_idle _ _ _ _ _) Hrun) as Hshape.
  pose proof (run_calls _ _ _ _ _ _ _ _ Hrun) as Hcalls. simpl in Hcalls.
  assert (∀ n, arrivals (replicate n (Loader.Resume 0)) = 0) as Hnone.
  { induction n as [|n IH]; [done|]. simpl. by rewrite arrivals_cons, IH. }
  destruct (shape_resolved_or_not s Hshape) as [Hres|[Hidle|[target Hpending]]].
  - destruct (drain s Hshape Hres) as (s' & Hdrain & Hempty & Hcount).
    eexists _, s'. rewrite run_app, Hrun. simpl.
    split; [exact Hdrain|]. split; [rewrite Hnone; lia|]. split; [done|]. lia.
  - exists [], s. rewrite app_nil_r. split; [done|]. split; [unfold arrivals; simpl; lia|].
    assert (Loader.awaiting s = []) as Hempty.
    { destruct Hshape; simpl in *; done. }
    split; [done|]. rewrite Hempty in Hcalls. simpl in Hcalls. lia.
  - destruct (settle_pending s target Hshape Hpending)
      as (s1 & Hstep & Hshape1 & Hres1 & Haw & Hse).
    destruct (drain s1 Hshape1 Hres1) as (s' & Hdrain & Hempty & Hcount).
    exists (Loader.Settle 0 :: replicate (length (Loader.awaiting s1)) (Loader.Resume 0)), s'.
    rewrite run_app, Hrun. cbn [mbind option_bind Loader.run]. rewrite Hstep. simpl.
    split; [exact Hdrain|]. rewrite arrivals_cons, Hnone.
    split; [unfold arrivals; simpl; lia|]. split; [done|].
    rewrite Hcount, Haw, Hse. lia.
Qed.

(** X13.  The interleaving cannot be observed: under every schedule, each
    call that finishes has the outcome that [singleFetch] would have for its
    route if it were the only call of the navigation. *)
Theorem loader_outcome_is_solo schedule s c :
  run schedule Loader.initial = Some s →
  c ∈ Loader.settled s →
  Loader.outcome c
  = soloSingleFetch manifest routeModules fetch request matches (Loader.caller c).
Proof.
  intros Hrun Hin.
  pose proof (run_shape _ _ _ _ _ _ _ _ (Shape_idle _ _ _ _ _) Hrun) as Hshape.
  unfold soloSingleFetch.
  destruct Hshape as [|target waiting Hurl Hw|target results waiting finished Hurl Hdec Hw Hf
                      |target e waiting finished Hurl Hdec Hw Hf|e waiting finished Hurl Hw Hf];
    simpl in Hin; try (by apply elem_of_nil in Hin); rewrite Hurl; cbn.
  - rewrite Hdec. cbn. by destruct (proj1 (Forall_forall _ _) Hf c Hin).
  - rewrite Hdec. cbn. by destruct (proj1 (Forall_forall _ _) Hf c Hin).
  - by destruct (proj1 (Forall_forall _ _) Hf c Hin).
Qed.

(** X14.  A network failure is final: when the consolidated request fails,
    every call that finishes throws that failure, also a call made after the
    failure, and the request is not issued again. *)
Theorem loader_network_failure schedule s target e :
  consolidated = Normal target →
  fetch target None = Throw e →
  run schedule Loader.initial = Some s →
  length (Loader.network s) ≤ 1
  ∧ Loader.objects s = []
  ∧ ∀ c, c ∈ Loader.settled s → Loader.outcome c = Throw e.
Proof.
  intros Hurl Hfail Hrun.
  pose proof (run_shape _ _ _ _ _ _ _ _ (Shape_idle _ _ _ _ _) Hrun) as Hshape.
  assert (fetchAndDecode (D:=SingleFetchResults) fetch target None = Throw e) as Hthrow.
  { unfold fetchAndDecode. by rewrite Hfail. }
  destruct Hshape as [|target' waiting Hurl' Hw|target' results waiting finished Hurl' Hdec Hw Hf
                      |target' e' waiting finished Hurl' Hdec Hw Hf|e' waiting finished Hurl' Hw Hf];
    simpl; try (assert (target' = target) as -> by congruence).
  - split; [lia|]. split; [done|]. intros c Hin. by apply elem_of_nil in Hin.
  - split; [lia|]. split; [done|]. intros c Hin. by apply elem_of_nil in Hin.
  - congruence.
  - split; [lia|]. split; [done|]. intros c Hin.
    assert (e' = e) as -> by congruence.
    by destruct (proj1 (Forall_forall _ _) Hf c Hin).
  - congruence.
Qed.

(** X15.  When a hook is declared and a matched route is missing from the
    manifest, under an identifier that is not the name of a property every
    object inherits, the URL of the consolidated request cannot be built: no
    request is ever sent, and every call that finishes throws the
    [TypeError]. *)
Theorem loader_unbuildable_url schedule s :
  (∃ m, m ∈ matches ∧ DeclaresHook routeModules m) →
  (∃ id, id ∈ routeIds matches ∧ routes manifest !! id = None
         ∧ isObjectPrototypeKey id = false) →
  run schedule Loader.initial = Some s →
  Loader.network s = []
  ∧ ∀ c, c ∈ Loader.settled s →
         Loader.observed c = None ∧ Loader.outcome c = Throw JTypeError.
Proof.
  intros Hhook Hmissing Hrun.
  pose proof (run_shape _ _ _ _ _ _ _ _ (Shape_idle _ _ _ _ _) Hrun) as Hshape.
  assert (consolidated = Throw JTypeError) as Hurl.
  { unfold Loader.consolidatedUrl.
    assert (∀ u, addRevalidationParam manifest routeModules matches u = Throw JTypeError)
      as Hthrow.
    { intros u. unfold addRevalidationParam.
      rewrite (proj2 (some_declares_spec routeModules matches) Hhook).
      fold (routeIds matches). by rewrite (genRouteIds_missing manifest _ Hmissing). }
    by rewrite Hthrow. }
  destruct Hshape as [|target waiting Hurl' Hw|target results waiting finished Hurl' Hdec Hw Hf
                      |target e waiting finished Hurl' Hdec Hw Hf|e waiting finished Hurl' Hw Hf];
    simpl; try congruence.
  - split; [done|]. intros c Hin. by apply elem_of_nil in Hin.
  - split; [done|]. intros c Hin.
    assert (e = JTypeError) as -> by congruence.
    exact (proj1 (Forall_forall _ _) Hf c Hin).
Qed.

Lemma unresolved_stays schedule s s' :
  shape s → unresolved s → run schedule s = Some s' →
  resolved s' →
  (∃ p, Loader.Settle p ∈ schedule) ∨ (∃ e, consolidated = Throw e).
Proof.
  revert s. induction schedule as [|ev schedule IH]; intros s Hshape Hun Hrun Hres;
    simpl in Hrun.
  - injection Hrun as <-. destruct Hres as (st & Hst & Hnot).
    destruct Hun as [Hnil|[target Hp]]; [congruence|].
    rewrite Hp in Hst. injection Hst as <-. by destruct (Hnot target).
  - destruct (step s ev) as [s1|] eqn:Hstep; [|done].
    pose proof (step_shape _ _ _ _ _ _ _ _ Hshape Hstep) as Hshape1.
    destruct ev as [routeId|p|k].
    + destruct (shape_resolved_or_not s1 Hshape1) as [Hres1|Hun1].
      * right. simpl in Hstep. injection Hstep as <-.
        destruct Hshape as [|target waiting Hurl Hw|? ? ? ? ? ? ? ?|? ? ? ? ? ? ? ?|? ? ? ? ? ?];
          try (destruct Hun as [Hnil|[t Hp]]; simpl in *; discriminate).
        -- unfold Loader.invoke, Loader.makeSingleFetchCall in Hres1. simpl in Hres1.
           destruct consolidated as [target|e] eqn:Hurl; [|by eexists].
           destruct Hres1 as (st & Hst & Hnot). simpl in Hst. injection Hst as <-.
           by destruct (Hnot target).
        -- destruct Hres1 as (st & Hst & Hnot). simpl in Hst. injection Hst as <-.
           by destruct (Hnot target).
      * destruct (IH s1 Hshape1 Hun1 Hrun Hres) as [[p Hp]|Hthrow]; [|by right].
        left. exists p. by right.
    + left. exists p. by left.
    + exfalso. simpl in Hstep. unfold Loader.resume in Hstep.
      destruct Hshape as [|target waiting Hurl Hw|? ? ? ? ? ? ? ?|? ? ? ? ? ? ? ?|? ? ? ? ? ?];
        try (destruct Hun as [Hnil|[t Hp]]; simpl in *; discriminate);
        simpl in Hstep; try done.
      destruct (waiting !! k) as [[routeId p]|] eqn:Hk; [|done].
      rewrite (awaited_first _ _ _ _ Hw Hk) in Hstep. simpl in Hstep. done.
Qed.

Lemma resolved_not_unresolved s : resolved s → unresolved s → False.
Proof.
  intros (st & Hst & Hnot) [Hnil|[target Hp]]; [congruence|].
  rewrite Hp in Hst. injection Hst as <-. by destruct (Hnot target).
Qed.

Lemma settle_resolves s p s1 :
  shape s → step s (Loader.Settle p) = Some s1 → unresolved s ∧ resolved s1.
Proof.
  intros Hshape Hstep. simpl in Hstep. unfold Loader.settle in Hstep.
  destruct Hshape; simpl in Hstep; destruct p as [|p]; simpl in Hstep; try discriminate.
  split; [right; by eexists|].
  destruct (fetchAndDecode fetch target None); injection Hstep as <-;
    eexists; simpl; by split.
Qed.

Lemma resolved_stays s ev s1 :
  shape s → resolved s → step s ev = Some s1 → resolved s1.
Proof.
  intros Hshape Hres Hstep. destruct ev as [routeId|p|k].
  - destruct Hres as (st & Hst & Hnot). simpl in Hstep. injection Hstep as <-.
    exists st. split; [|done]. unfold Loader.invoke.
    destruct Hshape; simpl in *; [discriminate Hst|done..].
  - destruct (resolved_not_unresolved s Hres).
    by destruct (settle_resolves s p s1 Hshape Hstep).
  - destruct Hres as (st & Hst & Hnot). exists st. split; [|done].
    simpl in Hstep. unfold Loader.resume in Hstep.
    destruct (Loader.awaiting s !! k) as [[routeId p]|]; [|done].
    destruct (Loader.promises s !! p) as [[?|ref|e]|]; try done.
    + destruct (Loader.objects s !! ref); [|done]. by injection Hstep as <-.
    + by injection Hstep as <-.
Qed.

Lemma arrivals_bound schedule s s' :
  shape s → run schedule s = Some s' →
  arrivals schedule ≤ 1 ∧ (resolved s → arrivals schedule = 0).
Proof.
  revert s. induction schedule as [|ev schedule IH]; intros s Hshape Hrun; simpl in Hrun.
  - unfold arrivals. simpl. split; [lia|done].
  - destruct (step s ev) as [s1|] eqn:Hstep; [|done].
    pose proof (step_shape _ _ _ _ _ _ _ _ Hshape Hstep) as Hshape1.
    destruct (IH s1 Hshape1 Hrun) as [IHle IHres].
    rewrite arrivals_cons.
    destruct (isSettle ev) eqn:Hev.
    + destruct ev as [|p|]; try discriminate Hev.
      destruct (settle_resolves s p s1 Hshape Hstep) as [Hun Hres1].
      rewrite (IHres Hres1). split; [unfold arrivals; simpl; lia|].
      intros Hres. destruct (resolved_not_unresolved s Hres Hun).
    + assert (arrivals [ev] = 0) as ->.
      { unfold arrivals. rewrite filter_cons, filter_nil.
        destruct (decide (isSettle ev = true)); [congruence|done]. }
      split; [simpl; lia|]. intros Hres. simpl. apply IHres.
      exact (resolved_stays s ev s1 Hshape Hres Hstep).
Qed.

(** X17.  The response arrives at most once, and no call continues before
    it: in every schedule that can happen there is at most one arrival, and
    every resumption comes after it, unless the URL of the request could not
    be built (the promise is then rejected from the start). *)
Theorem loader_arrival_before_resume schedule s :
  run schedule Loader.initial = Some s →
  arrivals schedule ≤ 1
  ∧ ∀ before k after,
      schedule = before ++ Loader.Resume k :: after →
      (∃ p, Loader.Settle p ∈ before) ∨ (∃ e, consolidated = Throw e).
Proof.
  intros Hrun. split.
  - apply (arrivals_bound schedule Loader.initial s (Shape_idle _ _ _ _ _) Hrun).
  - intros before k after ->. rewrite run_app in Hrun.
    destruct (run before Loader.initial) as [s1|] eqn:Hbefore; [|done].
    simpl in Hrun. destruct (Loader.resume k s1) as [s2|] eqn:Hresume; [|done].
    pose proof (run_shape _ _ _ _ _ _ _ _ (Shape_idle _ _ _ _ _) Hbefore) as Hshape1.
    eapply (unresolved_stays before Loader.initial s1);
      [apply Shape_idle | by left | done |].
    destruct (shape_resolved_or_not s1 Hshape1) as [Hres|Hun]; [done|]. exfalso.
    unfold Loader.resume in Hresume.
    destruct Hshape1 as [|target waiting Hurl Hw|? ? ? ? ? ? ? ?|? ? ? ? ? ? ? ?|? ? ? ? ? ?];
      try (destruct Hun as [Hnil|[t Hp]]; simpl in *; discriminate);
      simpl in Hresume; try done.
    destruct (waiting !! k) as [[routeId p]|] eqn:Hk; [|done].
    rewrite (awaited_first _ _ _ _ Hw Hk) in Hresume. simpl in Hresume. done.
Qed.

End LoaderSchedules.

Lemma loader_outcome_is_solo_witness :
  ∃ s c,
    Loader.run Sample.manifest Sample.routeModules Sample.fetch Sample.request
      Sample.matches Sample.schedule Loader.initial = Some s
    ∧ c ∈ Loader.settled s
    ∧ Loader.outcome c
      = soloSingleFetch Sample.manifest Sample.routeModules Sample.fetch Sample.request
          Sample.matches (Loader.caller c).
Proof.
  destruct (Loader.run Sample.manifest Sample.routeModules Sample.fetch
              Sample.request Sample.matches Sample.schedule Loader.initial)
    as [s|] eqn:Hrun; [|discriminate Hrun].
  destruct (Loader.settled s) as [|c rest] eqn:Hsettled;
    [injection Hrun as <-; discriminate Hsettled|].
  assert (c ∈ Loader.settled s) as Hin by (rewrite Hsettled; by left).
  exists s, c. split; [reflexivity|]. split; [exact Hin|].
  exact (loader_outcome_is_solo Sample.manifest Sample.routeModules Sample.fetch
           Sample.request Sample.matches Sample.schedule s c Hrun Hin).
Defined.

Lemma loader_network_failure_witness :
  ∃ s c1 c2 c3,
    Loader.run Sample.manifest Sample.routeModules Sample.fetchOffline Sample.request
      Sample.matches Sample.schedule Loader.initial = Some s
    ∧ Loader.settled s = [c1; c2; c3]
    ∧ Loader.outcome c3 = Throw (JError "Failed to fetch").
Proof.
  destruct (Loader.run Sample.manifest Sample.routeModules Sample.fetchOffline
              Sample.request Sample.matches Sample.schedule Loader.initial)
    as [s|] eqn:Hrun; [|discriminate Hrun].
  destruct (Loader.settled s) as [|c1 [|c2 [|c3 [|c4 rest]]]] eqn:Hsettled;
    try (injection Hrun as <-; discriminate Hsettled).
  destruct (Loader.consolidatedUrl Sample.manifest Sample.routeModules Sample.request
              Sample.matches) as [target|e] eqn:Hurl; [|discriminate Hurl].
  destruct (loader_network_failure Sample.manifest Sample.routeModules
              Sample.fetchOffline Sample.request Sample.matches Sample.schedule s target
              (JError "Failed to fetch") Hurl eq_refl Hrun) as (_ & _ & Hall).
  exists s, c1, c2, c3. split; [reflexivity|]. split; [exact Hsettled|].
  apply Hall. rewrite Hsettled. right. right. by left.
Defined.

Lemma loader_unbuildable_url_witness :
  ∃ s c,
    Loader.run {| routes := ∅ |} Sample.routeModules Sample.fetch Sample.request
      Sample.matches [Loader.Invoke "root"; Loader.Resume 0] Loader.initial = Some s
    ∧ Loader.network s = []
    ∧ Loader.settled s = [c]
    ∧ Loader.outcome c = Throw JTypeError.
Proof.
  destruct (Loader.run {| routes := ∅ |} Sample.routeModules Sample.fetch
              Sample.request Sample.matches [Loader.Invoke "root"; Loader.Resume 0]
              Loader.initial)
    as [s|] eqn:Hrun; [|discriminate Hrun].
  destruct (Loader.settled s) as [|c [|c2 rest]] eqn:Hsettled;
    try (injection Hrun as <-; discriminate Hsettled).
  destruct (loader_unbuildable_url {| routes := ∅ |} Sample.routeModules Sample.fetch
              Sample.request Sample.matches [Loader.Invoke "root"; Loader.Resume 0] s)
    as [Hnet Hall]; [exact Sample_declares | | exact Hrun |].
  { exists "root". split; [left | split; reflexivity]. }
  exists s, c. split; [reflexivity|]. split; [exact Hnet|]. split; [exact Hsettled|].
  apply Hall. rewrite Hsettled. by left.
Defined.

Lemma loader_calls_can_finish_witness :
  ∃ rest s',
    Loader.run Sample.manifest Sample.routeModules Sample.fetch Sample.request
      Sample.matches ([Loader.Invoke "root"; Loader.Invoke "routes/a"] ++ rest)
      Loader.initial = Some s'
    ∧ Loader.awaiting s' = []
    ∧ length (Loader.settled s') = 2.
Proof.
  destruct (Loader.run Sample.manifest Sample.routeModules Sample.fetch
              Sample.request Sample.matches
              [Loader.Invoke "root"; Loader.Invoke "routes/a"] Loader.initial)
    as [s|] eqn:Hrun; [|discriminate Hrun].
  destruct (loader_calls_can_finish Sample.manifest Sample.routeModules Sample.fetch
              Sample.request Sample.matches
              [Loader.Invoke "root"; Loader.Invoke "routes/a"] s Hrun)
    as (rest & s' & Hrest & _ & Hempty & Hcount).
  exists rest, s'. split; [exact Hrest|]. split; [exact Hempty | exact Hcount].
Defined.

Lemma loader_arrival_before_resume_witness :
  (∃ p, Loader.Settle p
        ∈ [Loader.Invoke "root"; Loader.Invoke "routes/a"; Loader.Settle 0;
           Loader.Invoke "routes/a/b"])
  ∨ (∃ e, Loader.consolidatedUrl Sample.manifest Sample.routeModules Sample.request
            Sample.matches = Throw e).
Proof.
  destruct (Loader.run Sample.manifest Sample.routeModules Sample.fetch
              Sample.request Sample.matches Sample.schedule Loader.initial)
    as [s|] eqn:Hrun; [|discriminate Hrun].
  exact (proj2 (loader_arrival_before_resume Sample.manifest Sample.routeModules
                  Sample.fetch Sample.request Sample.matches Sample.schedule s Hrun)
               [Loader.Invoke "root"; Loader.Invoke "routes/a"; Loader.Settle 0;
                Loader.Invoke "routes/a/b"]
               1 [Loader.Resume 0; Loader.Resume 0] eq_refl).
Defined.

(** * The Cloudflare Workers entry point *)

(** X18.  A static asset is served first.  The store is asked with the
    namespace of [env], the parsed manifest and one TTL for browser and edge,
    a year (31536000 seconds) for a path under [/build/] and five minutes
    (300 seconds) for any other; when it answers, that answer is the
    worker's, nothing is logged and the application handler plays no
    part. *)
Theorem worker_serves_asset {Fetcher Manifest R : Type} (assetManifest : Manifest)
    (getAssetFromKV : Request → Worker.Options Fetcher Manifest → Completion R)
    (handleRemixRequest : Request → Worker.Env Fetcher → Completion R)
    (request : Request) (env : Worker.Env Fetcher) (asset : R) :
  let ttl := if String.prefix "/build/" (pathname (url request))
             then 31536000%Z else 300%Z in
  getAssetFromKV request
    {| Worker.ASSET_NAMESPACE := Worker.__STATIC_CONTENT env;
       Worker.ASSET_MANIFEST := assetManifest;
       Worker.cacheControl := {| Worker.browserTTL := ttl; Worker.edgeTTL := ttl |} |}
  = Normal asset →
  Worker.fetch assetManifest getAssetFromKV handleRemixRequest request env
  = ([], Normal (Worker.Passed asset)).
Proof.
  intros ttl Hasset. unfold Worker.fetch.
  change (60 * 60 * 24 * 365)%Z with 31536000%Z. change (60 * 5)%Z with 300%Z.
  fold ttl. by rewrite Hasset.
Qed.

Lemma worker_serves_asset_witness :
  Worker.fetch tt Sample.getAssetFromKV Sample.handleRemixRequest
    {| method := "GET";
       url := mkURL "https://remix.run" "/build/root-ABC.js" [] EmptyString |}
    {| Worker.__STATIC_CONTENT := tt |}
  = ([], Normal (Worker.Passed "asset")).
Proof.
  exact (worker_serves_asset tt Sample.getAssetFromKV Sample.handleRemixRequest
           {| method := "GET";
              url := mkURL "https://remix.run" "/build/root-ABC.js" [] EmptyString |}
           {| Worker.__STATIC_CONTENT := tt |} "asset" eq_refl).
Defined.

(** X19.  The worker never throws, and an asset lookup that fails is
    swallowed without a trace: whatever the collaborators do, [fetch]
    completes normally; when the lookup the worker makes (with the namespace
    of [env], the parsed manifest and the TTL of the path) fails, whatever
    its error, the answer is the application handler's response and nothing
    is logged, or, if the handler throws, that error is the one thing logged
    and the answer is a 500 response with the text
    [An unexpected error occurred]. *)
Theorem worker_never_throws {Fetcher Manifest R : Type} (assetManifest : Manifest)
    (getAssetFromKV : Request → Worker.Options Fetcher Manifest → Completion R)
    (handleRemixRequest : Request → Worker.Env Fetcher → Completion R)
    (request : Request) (env : Worker.Env Fetcher) :
  let ttl := if String.prefix "/build/" (pathname (url request))
             then 31536000%Z else 300%Z in
  (∃ answer,
      (Worker.fetch assetManifest getAssetFromKV handleRemixRequest request env).2
      = Normal answer)
  ∧ (∀ failure,
       getAssetFromKV request
         {| Worker.ASSET_NAMESPACE := Worker.__STATIC_CONTENT env;
            Worker.ASSET_MANIFEST := assetManifest;
            Worker.cacheControl := {| Worker.browserTTL := ttl; Worker.edgeTTL := ttl |} |}
       = Throw failure →
       (∀ response, handleRemixRequest request env = Normal response →
          Worker.fetch assetManifest getAssetFromKV handleRemixRequest request env
          = ([], Normal (Worker.Passed response)))
       ∧ (∀ error, handleRemixRequest request env = Throw error →
          Worker.fetch assetManifest getAssetFromKV handleRemixRequest request env
          = ([error], Normal (Worker.Built "An unexpected error occurred" 500)))).
Proof.
  intros ttl. unfold Worker.fetch.
  change (60 * 60 * 24 * 365)%Z with 31536000%Z. change (60 * 5)%Z with 300%Z.
  fold ttl. split.
  - destruct (getAssetFromKV request _); [by eexists|].
    destruct (handleRemixRequest request env); by eexists.
  - intros failure ->. split; intros ? ->; done.
Qed.

Lemma worker_never_throws_witness :
  Worker.fetch tt Sample.getAssetFromKV Sample.handleRemixRequest
    {| method := "GET"; url := mkURL "https://remix.run" "/boom" [] EmptyString |}
    {| Worker.__STATIC_CONTENT := tt |}
  = ([JError "loader failed"], Normal (Worker.Built "An unexpected error occurred" 500)).
Proof.
  apply (proj2 (worker_never_throws tt Sample.getAssetFromKV Sample.handleRemixRequest
                  {| method := "GET";
                     url := mkURL "https://remix.run" "/boom" [] EmptyString |}
                  {| Worker.__STATIC_CONTENT := tt |}) (JError "not found")).
  - reflexivity.
  - reflexivity.
Defined.
